(** * BitStream: a bit-addressable byte buffer with an ASCII-hex decoder

    Shallow embedding of [BitStream.c] (M. Kulkarni) and verification of the
    properties its specification states.

    Conventions of the embedding:
    - C integers are [Z]; every assignment to a [uint8_t], [uint16_t] or
      [short] object is written with the corresponding wrap-around
      ([uint8], [uint16], [int16]);
    - [bs->array] is [option (list Z)] ([None] is the NULL pointer, the list
      is the allocated block, one [Z] per byte);
    - undefined behaviour and [assert(0)] are explicit: every function that
      dereferences memory or converts a digit returns a [result]. *)

From Stdlib Require Import ZArith Lia Bool Ascii String.
From stdpp Require Import base list strings.

Local Open Scope Z_scope.

(** ** Machine integers *)

Module MachineInt.

Definition uint8 (x : Z) : Z := x mod 256.
Definition int8 (x : Z) : Z :=
  let r := x mod 256 in if r <? 128 then r else r - 256.
Definition uint16 (x : Z) : Z := x mod 65536.

(** [short]: 16 bits, two's complement. *)
Definition int16 (x : Z) : Z :=
  let r := x mod 65536 in if r <? 32768 then r else r - 65536.

(** [char] holding the character [c] (signed, as on x86). *)
Definition chr (c : ascii) : Z := int8 (Z.of_N (Ascii.N_of_ascii c)).

End MachineInt.
Import MachineInt.

(** ** Outcomes of a C call *)

Inductive fault : Set :=
| AssertFailed   (* assert(0) was reached *)
| NullDeref      (* access through a NULL pointer *)
| OutOfBounds    (* access outside the allocated block *)
| OutOfFuel.     (* the loop bound of the model was exhausted *)

Inductive result (A : Type) : Type :=
| Done (a : A)
| Crash (f : fault).
Arguments Done {A} a.
Arguments Crash {A} f.

Definition bind {A B} (m : result A) (k : A -> result B) : result B :=
  match m with
  | Done a => k a
  | Crash f => Crash f
  end.

Notation "'let*' x ':=' m 'in' k" := (bind m (fun x => k))
  (at level 10, x name, m at level 200, k at level 200).

(** ** The buffer object *)

(** Modelled from the spec: the header [BitStream.h] is not part of the
    sources; the structure has the two fields the code uses, the bit length
    ([uint16_t]) and the owned byte storage. *)
Record BitStream : Type := mkBitStream {
  array : option (list Z);
  nbits : Z
}.

(** Modelled from the spec: the macros of [BitStream.h].  A byte has 8 bits;
    for a bit offset [o] the byte index is [o / 8] and the bit offset inside
    the byte is [o % 8]. *)
Definition BITS_PER_BYTE : Z := 8.
Definition MIN (a b : Z) : Z := if a <? b then a else b.
Definition DECL_BYTE_OFFSET (offset : Z) : Z := offset / BITS_PER_BYTE.
Definition DECL_BITS_OFFSET (offset : Z) : Z := offset mod BITS_PER_BYTE.

(** ** Memory accesses

    A [uint8_t *] is [None] (NULL) or the block it points to.  Reading or
    writing outside the block is undefined behaviour in C; the model stops
    with a [fault]. *)

(** [p[i]] as an rvalue. *)
Definition peek (p : option (list Z)) (i : Z) : result Z :=
  match p with
  | None => Crash NullDeref
  | Some a =>
      if i <? 0 then Crash OutOfBounds
      else match a !! Z.to_nat i with
           | Some v => Done v
           | None => Crash OutOfBounds
           end
  end.

(** [p[i] = v], the value converted to [uint8_t]. *)
Definition poke (p : option (list Z)) (i : Z) (v : Z) : result (option (list Z)) :=
  match p with
  | None => Crash NullDeref
  | Some a =>
      if (0 <=? i) && (i <? Z.of_nat (length a))
      then Done (Some (<[Z.to_nat i := uint8 v]> a))
      else Crash OutOfBounds
  end.

(** [bs->array[i]] as an rvalue. *)
Definition load (bs : BitStream) (i : Z) : result Z := peek (array bs) i.

(** [bs->array[i] = v]. *)
Definition store (bs : BitStream) (i : Z) (v : Z) : result BitStream :=
  let* a := poke (array bs) i v in Done (mkBitStream a (nbits bs)).

(** ** BitStreamPutByte *)

Definition BitStreamPutByte (bs : BitStream) (byte : Z) (offset n_bits : Z)
  : result (BitStream * Z) :=
  let bitsCopied := 0 in
  let i := DECL_BYTE_OFFSET offset in
  let j := DECL_BITS_OFFSET offset in
  let byte :=
    if n_bits <? 8 then uint8 (Z.shiftl byte (BITS_PER_BYTE - n_bits)) else byte in
  let curBits := uint16 (MIN (BITS_PER_BYTE - j) n_bits) in
  let mask :=
    uint8 (Z.land (Z.shiftr 255 j)
                  (Z.shiftl 255 (BITS_PER_BYTE - (j + curBits)))) in
  let* old := load bs i in
  let* bs :=
    store bs i (Z.lor (Z.land old (Z.lnot mask)) (Z.land (Z.shiftr byte j) mask)) in
  let bitsCopied := uint16 (bitsCopied + curBits) in
  let byte := uint8 (Z.shiftl byte curBits) in
  if curBits <? n_bits then
    let curBits := uint16 (n_bits - curBits) in
    let mask := uint8 (Z.shiftl 255 (BITS_PER_BYTE - curBits)) in
    let* old := load bs (i + 1) in
    let* bs :=
      store bs (i + 1) (Z.lor (Z.land old (Z.lnot mask)) (Z.land byte mask)) in
    let bitsCopied := uint16 (bitsCopied + curBits) in
    Done (bs, bitsCopied)
  else Done (bs, bitsCopied).

(** ** BitStreamGetByte

    [byte0] is the content of [*byte] before the call; the result is the
    content of [*byte] after the call and the returned bit count. *)

Definition BitStreamGetByte (bs : BitStream) (byte0 : Z) (offset n_bits : Z)
  : result (Z * Z) :=
  let bitsCopied := 0 in
  let i := DECL_BYTE_OFFSET offset in
  let j := DECL_BITS_OFFSET offset in
  if offset + n_bits >? nbits bs then Done (byte0, 0)
  else
    let curBits := uint16 (MIN (BITS_PER_BYTE - j) n_bits) in
    let mask :=
      uint8 (Z.land (Z.shiftr 255 j)
                    (Z.shiftl 255 (BITS_PER_BYTE - (j + curBits)))) in
    let* a := load bs i in
    let byte := uint8 (Z.shiftl (Z.land a mask) j) in
    let bitsCopied := uint16 (bitsCopied + curBits) in
    let* second :=
      if curBits <? n_bits then
        let curBits := uint16 (n_bits - curBits) in
        let mask := uint8 (Z.shiftl 255 (BITS_PER_BYTE - curBits)) in
        let* a1 := load bs (i + 1) in
        let byte :=
          uint8 (Z.lor byte (Z.shiftr (Z.land a1 mask) (BITS_PER_BYTE - j))) in
        Done (byte, uint16 (bitsCopied + curBits))
      else Done (byte, bitsCopied) in
    let '(byte, bitsCopied) := second in
    let byte :=
      if n_bits <? 8 then uint8 (Z.shiftr byte (BITS_PER_BYTE - n_bits)) else byte in
    Done (byte, bitsCopied).

(** ** The allocator

    [malloc], [calloc] and [realloc] may fail, and [realloc] leaves the bytes
    of an extension indeterminate; both are choices of the C library, taken
    here as a parameter of the functions that allocate. *)

Record libc : Type := mkLibc {
  malloc_ok : bool;
  calloc_ok : bool;
  realloc_ok : bool;
  junk : nat -> Z    (* indeterminate content of fresh bytes *)
}.

Definition calloc (h : libc) (n : Z) : option (list Z) :=
  if calloc_ok h then Some (replicate (Z.to_nat n) 0) else None.

Definition realloc (h : libc) (old : list Z) (n : Z) : option (list Z) :=
  if realloc_ok h
  then Some (map (fun k => default (uint8 (junk h k)) (old !! k))
                 (seq 0 (Z.to_nat n)))
  else None.

(** [memset(p, c, n)]: the first [n] bytes of the block become [c]. *)
Definition memset (a : list Z) (c : Z) (n : Z) : list Z :=
  replicate (Nat.min (Z.to_nat n) (length a)) (uint8 c) ++ drop (Z.to_nat n) a.

(** ** BitStreamCreate

    The result is the object [bs] points to.  When an allocation fails [bs]
    is NULL at the assignment [bs->nbits = nbits]. *)

Definition BitStreamCreate (h : libc) (n_bits : Z) : result BitStream :=
  if malloc_ok h then
    if negb (n_bits =? 0) then
      match calloc h ((n_bits + BITS_PER_BYTE - 1) / BITS_PER_BYTE) with
      | None => Crash NullDeref
      | Some a =>
          (* memset(bs->array, (nbits + BITS_PER_BYTE - 1)/BITS_PER_BYTE, 0):
             the value and the count are in this order in the source *)
          let a := memset a ((n_bits + BITS_PER_BYTE - 1) / BITS_PER_BYTE) 0 in
          Done (mkBitStream (Some a) n_bits)
      end
    else Done (mkBitStream None n_bits)
  else Crash NullDeref.

(** ** BitStreamRealloc

    [bs] and [buffer] are pointers: [None] is NULL. *)

Definition BitStreamRealloc (h : libc) (bs : option BitStream)
    (buffer : option (list Z)) (n_bits : Z) : option BitStream :=
  match bs with
  | Some b =>
      let a :=
        match array b with
        | Some old =>
            match buffer with
            | Some buf => Some buf             (* free (bs->array) *)
            | None =>
                if negb (n_bits =? 0)
                then realloc h old ((n_bits + BITS_PER_BYTE - 1) / BITS_PER_BYTE)
                else None
            end
        | None => buffer
        end in
      Some (mkBitStream a n_bits)
  | None => None
  end.

(** ** BitStreamFill

    [inp] is the block the source pointer addresses; every turn of the loop
    reads [*inp++], so the loop is structural on it. *)

Fixpoint fill_loop (inp : list Z) (bs : BitStream) (bitsCopied : Z)
  : result (BitStream * Z) :=
  if bitsCopied <? nbits bs then
    match inp with
    | [] => Crash OutOfBounds
    | b :: inp' =>
        let* r := BitStreamPutByte bs b bitsCopied BITS_PER_BYTE in
        fill_loop inp' (fst r) (uint16 (bitsCopied + snd r))
    end
  else Done (bs, bitsCopied).

Definition BitStreamFill (bs : BitStream) (inp : list Z) (n_bits : Z)
  : result (BitStream * Z) :=
  let bitsCopied := 0 in
  fill_loop inp bs bitsCopied.

(** ** xtoi

    [assert(0)] ends the call; the third test is [c <- 'F'] in the source,
    that is [c < -'F']. *)

Definition xtoi (c : Z) : result Z :=
  if (c >=? chr "0") && (c <=? chr "9") then Done (uint8 (c - chr "0"))
  else if (c >=? chr "a") && (c <=? chr "f") then Done (uint8 (c - chr "a" + 10))
  else if (c >=? chr "A") && (c <? - chr "F") then Done (uint8 (c - chr "A" + 10))
  else Crash AssertFailed.

(** ** strtox *)

(** [strlen]: the characters before the first NUL. *)
Fixpoint strlen (s : string) : nat :=
  match s with
  | EmptyString => O
  | String c s' => if Ascii.eqb c Ascii.zero then O else S (strlen s')
  end.

(** [in[k]]: the characters of the literal, then its terminator. *)
Definition char_at (s : string) (k : Z) : result Z :=
  if k <? 0 then Crash OutOfBounds
  else match String.get (Z.to_nat k) s with
       | Some c => Done (chr c)
       | None => if k =? Z.of_nat (String.length s) then Done 0
                 else Crash OutOfBounds
       end.

Fixpoint strtox_loop (fuel : nat) (inp : string) (len size : Z) (i j : Z)
    (out : option (list Z)) : result (option (list Z) * Z) :=
  if i <? len then
    match fuel with
    | O => Crash OutOfFuel
    | S fuel' =>
        let* c := char_at inp i in
        let* x := xtoi c in
        let ll := int8 x in
        let* c := char_at inp (i + 1) in
        let* x := xtoi c in
        let uu := int8 x in
        let* out := poke out j (Z.lor (Z.shiftl ll 4) uu) in
        let j := int16 (j + 1) in
        if j >=? size then Done (out, -1)
        else strtox_loop fuel' inp len size (int16 (i + 2)) j out
    end
  else Done (out, j).

Definition strtox (inp : string) (out : option (list Z)) (size : Z)
  : result (option (list Z) * Z) :=
  let len := int16 (Z.of_nat (strlen inp)) in
  let i := 0 in
  let j := 0 in
  let* st :=
    if negb (Z.rem len 2 =? 0) then
      let* c := char_at inp 0 in
      let* x := xtoi c in
      let* out := poke out j x in
      Done (1, int16 (j + 1), out)
    else Done (i, j, out) in
  let '(i, j, out) := st in
  strtox_loop (Z.to_nat len) inp len size i j out.

(** ** BitStreamFillAscii *)

Definition BitStreamFillAscii (h : libc) (bs : option BitStream) (inp : string)
  : result (option BitStream * Z) :=
  let size := uint16 (Z.shiftr (Z.of_nat (strlen inp) + 1) 1) in
  let* bs :=
    match bs with
    | Some _ =>
        match BitStreamRealloc h bs None (uint16 (size * BITS_PER_BYTE)) with
        | Some b =>
            let* r := strtox inp (array b) size in
            Done (Some (mkBitStream (fst r) (nbits b)))
        | None => Done None
        end
    | None => Done None
    end in
  Done (bs, uint16 (size * BITS_PER_BYTE)).

(** ** BitStreamExclusiveOr *)

(** Modelled from the spec: the outcome of a combination, a new buffer or
    the error [LengthMismatch]. *)
Inductive combined : Type :=
| Combined (c : BitStream)
| LengthMismatch.

(** Modelled from the spec: [BitStreamExclusiveOr] is called by the driver
    and its definition is not among the sources.  It requires the operands
    to have the same bit length and produces a new buffer of that length
    whose bytes are the byte-wise XOR of the operands'; with different
    lengths it fails with [LengthMismatch] and produces no buffer. *)
Definition BitStreamExclusiveOr (a b : BitStream) : combined :=
  if nbits a =? nbits b then
    Combined (mkBitStream
                (match array a, array b with
                 | Some x, Some y => Some (zip_with Z.lxor x y)
                 | _, _ => None
                 end)
                (nbits a))
  else LengthMismatch.

(** * Definitions used by the statements *)

(** ** The structural invariant of a buffer *)

Definition nbytes (n : Z) : Z := (n + BITS_PER_BYTE - 1) / BITS_PER_BYTE.

Definition invariant (bs : BitStream) : Prop :=
  match array bs with
  | None => nbits bs = 0
  | Some a => 0 < nbits bs /\ Z.of_nat (length a) = nbytes (nbits bs)
  end.

(** ** The read-modify-write of a byte *)

(** The pieces of the read-modify-write of [BitStreamPutByte], named. *)
Definition field_mask (j cur : Z) : Z :=
  uint8 (Z.land (Z.shiftr 255 j) (Z.shiftl 255 (BITS_PER_BYTE - (j + cur)))).

Definition tail_mask (cur : Z) : Z :=
  uint8 (Z.shiftl 255 (BITS_PER_BYTE - cur)).

Definition merge (old mask x : Z) : Z :=
  uint8 (Z.lor (Z.land old (Z.lnot mask)) (Z.land x mask)).

Definition left_align (value n : Z) : Z :=
  if n <? 8 then uint8 (Z.shiftl value (BITS_PER_BYTE - n)) else value.

Definition right_align (byte n : Z) : Z :=
  if n <? 8 then uint8 (Z.shiftr byte (BITS_PER_BYTE - n)) else byte.

(** Finite case analysis on a byte, a bit offset and a width. *)
Definition Zrange (lo : Z) (n : nat) : list Z :=
  map (fun k => lo + Z.of_nat k) (seq 0 n).

Definition all_cases (P : Z -> Z -> Z -> bool) : bool :=
  forallb (fun v => forallb (fun j => forallb (fun n => P v j n) (Zrange 0 9))
                      (Zrange 0 8)) (Zrange 0 256).

(** ** Hexadecimal digits and the bytes a digit string denotes *)

Definition code (c : ascii) : Z := Z.of_N (Ascii.N_of_ascii c).

Definition is_digit (c : ascii) : bool := (48 <=? code c) && (code c <=? 57).
Definition is_lower_hex (c : ascii) : bool := (97 <=? code c) && (code c <=? 102).
Definition is_upper_hex (c : ascii) : bool := (65 <=? code c) && (code c <=? 70).

(** The digit set of the specification, [0-9a-fA-F], and the value of a
    digit. *)
Definition is_hex_digit (c : ascii) : bool :=
  is_digit c || is_lower_hex c || is_upper_hex c.

Definition hex_value (c : ascii) : Z :=
  if is_digit c then code c - 48
  else if is_lower_hex c then code c - 97 + 10
  else if is_upper_hex c then code c - 65 + 10
  else 0.

(** The digits [xtoi] converts: [0-9a-f]. *)
Definition accepted (c : ascii) : bool := is_digit c || is_lower_hex c.

Fixpoint decode_pairs (cs : list ascii) : list Z :=
  match cs with
  | c1 :: c2 :: rest => (16 * hex_value c1 + hex_value c2) :: decode_pairs rest
  | _ => []
  end.

(** A leading unpaired digit is a byte of its own. *)
Definition hex_bytes (cs : list ascii) : list Z :=
  if Nat.odd (length cs) then
    match cs with
    | c :: rest => hex_value c :: decode_pairs rest
    | [] => []
    end
  else decode_pairs cs.

(** ** Concrete inputs *)

Fixpoint zeros (n : nat) : string :=
  match n with
  | O => EmptyString
  | S n' => String "0" (zeros n')
  end.

Definition libc_ok : libc := mkLibc true true true (fun _ => 0).
Definition one_byte_buffer : BitStream := mkBitStream (Some [0]) 8.

Definition full_storage : list Z := replicate (Z.to_nat 8192) 0.
Definition full_buffer : BitStream := mkBitStream (Some full_storage) 65535.

(** ** The storage as a sequence of bits *)

(** Bit [k] of the storage, counted from bit offset 0, most significant bit
    of each byte first; [false] outside the storage. *)
Definition bit_at (a : list Z) (k : Z) : bool :=
  match a !! Z.to_nat (k / 8) with
  | Some b => Z.testbit b (7 - k mod 8)
  | None => false
  end.

(** Storage whose elements are bytes. *)
Definition byte_storage (a : list Z) : Prop := Forall (fun b => 0 <= b < 256) a.

(** ** BitStreamShow

    [printf] writes to the standard output; the model returns what has been
    written.  The conversions the source uses are [%03d] on a [uint16_t]
    and [%02x] on a [uint8_t], both on values that are not negative: the
    digits of the value in base 10 or 16 (lower case), left-padded with
    ['0'] to the width. *)

Definition digit_char (d : Z) : ascii :=
  Ascii.ascii_of_N (Z.to_N (if d <? 10 then 48 + d else 87 + d)).

Fixpoint digits_of (fuel : nat) (base n : Z) (acc : string) : string :=
  match fuel with
  | O => acc
  | S fuel' =>
      let acc := String (digit_char (n mod base)) acc in
      if n / base =? 0 then acc else digits_of fuel' base (n / base) acc
  end.

Fixpoint zero_pad (k : nat) (s : string) : string :=
  match k with
  | O => s
  | S k' => String "0" (zero_pad k' s)
  end.

Definition printf_number (base : Z) (width : nat) (n : Z) : string :=
  let s := digits_of (S (Z.to_nat (Z.log2 n))) base n EmptyString in
  zero_pad (width - String.length s) s.

Definition printf_03d (n : Z) : string := printf_number 10 3 n.
Definition printf_02x (n : Z) : string := printf_number 16 2 n.

Definition tab : string := String (Ascii.ascii_of_nat 9) EmptyString.
Definition newline : string := String (Ascii.ascii_of_nat 10) EmptyString.

Fixpoint show_loop (fuel : nat) (bs : BitStream) (i : Z) (out : string)
  : result string :=
  if i <? (nbits bs + BITS_PER_BYTE - 1) / BITS_PER_BYTE then
    match fuel with
    | O => Crash OutOfFuel
    | S fuel' =>
        let out :=
          if negb (i =? 0) && (Z.rem i 4 =? 0) then out +:+ "  " else out in
        let out :=
          if negb (i =? 0) && (Z.rem i 8 =? 0)
          then out +:+ newline +:+ printf_03d i +:+ tab else out in
        let* b := load bs i in
        let out := out +:+ printf_02x b +:+ " " in
        show_loop fuel' bs (uint16 (i + 1)) out
    end
  else Done out.

Definition BitStreamShow (bs : option BitStream) : result string :=
  let i := 0 in
  match bs with
  | Some b =>
      match array b with
      | Some _ =>
          let out := printf_03d i +:+ tab in
          show_loop (Z.to_nat ((nbits b + BITS_PER_BYTE - 1) / BITS_PER_BYTE)) b i out
      | None => Done ("NULL!" +:+ newline)
      end
  | None => Done ("NULL!" +:+ newline)
  end.

(** The text of one byte of index [i], and of the bytes from index [i] on. *)
Definition show_cell (i b : Z) : string :=
  (if negb (i =? 0) && (i mod 4 =? 0) then "  " else "") +:+
  (if negb (i =? 0) && (i mod 8 =? 0) then newline +:+ printf_03d i +:+ tab else "") +:+
  printf_02x b +:+ " ".

Fixpoint show_cells (i : Z) (a : list Z) : string :=
  match a with
  | [] => ""
  | b :: a' => show_cell i b +:+ show_cells (i + 1) a'
  end.

(** The two hexadecimal digits of every byte, one after the other. *)
Fixpoint hex_text (a : list Z) : string :=
  match a with
  | [] => ""
  | b :: a' => printf_02x b +:+ hex_text a'
  end.

(** * Verification *)

(** ** Machine integers and outcomes *)

Lemma uint8_range x : 0 <= uint8 x < 256.
Proof. unfold uint8. apply Z.mod_pos_bound. lia. Qed.

Lemma uint16_range x : 0 <= uint16 x < 65536.
Proof. unfold uint16. apply Z.mod_pos_bound. lia. Qed.

Lemma uint8_small x : 0 <= x < 256 -> uint8 x = x.
Proof. intros H. unfold uint8. now apply Z.mod_small. Qed.

Lemma uint16_small x : 0 <= x < 65536 -> uint16 x = x.
Proof. intros H. unfold uint16. now apply Z.mod_small. Qed.

Lemma int16_small x : 0 <= x < 32768 -> int16 x = x.
Proof.
  intros H. unfold int16. rewrite Z.mod_small by lia.
  destruct (Z.ltb_spec x 32768); lia.
Qed.

Lemma uint8_land x : uint8 x = Z.land x 255.
Proof. unfold uint8. change 255 with (Z.ones 8). now rewrite Z.land_ones. Qed.

Lemma bind_Done {A B} (m : result A) (k : A -> result B) b :
  bind m k = Done b -> exists a, m = Done a /\ k a = Done b.
Proof. destruct m as [a|f]; simpl; [eauto | discriminate]. Qed.

(** ** Tests decided by linear arithmetic *)

Ltac Zb_split :=
  repeat match goal with
         | |- (_ && _) = true => apply andb_true_iff; split
         | |- negb _ = true => apply negb_true_iff
         end.

Ltac Zb_atom :=
  first [ apply Z.leb_le | apply Z.ltb_lt | apply Z.eqb_eq | apply Z.eqb_neq
        | apply Z.leb_gt | apply Z.ltb_ge ]; lia.

(** [Zb] proves [true = t] and [false = t] for a test [t] built from
    comparisons on [Z]. *)
Ltac Zb := symmetry; Zb_split; Zb_atom.

(** ** Byte-level facts *)

Section ByteOps.

Lemma land_255_byte m : 0 <= m < 256 -> Z.land m 255 = m.
Proof. intros H. rewrite <- uint8_land. now apply uint8_small. Qed.

(** Reading a merged byte through the mask gives the written bits. *)
Lemma land_merge old m x : 0 <= m < 256 -> Z.land (merge old m x) m = Z.land x m.
Proof.
  intros Hm. unfold merge. rewrite uint8_land.
  rewrite <- (land_255_byte m Hm).
  apply Z.bits_inj'. intros k Hk.
  rewrite !Z.land_spec, Z.lor_spec, !Z.land_spec, Z.lnot_spec, Z.land_spec by assumption.
  destruct (Z.testbit old k), (Z.testbit m k), (Z.testbit 255 k), (Z.testbit x k);
    reflexivity.
Qed.

(** Reading it outside the mask gives the old bits. *)
Lemma land_merge_frame old m x c :
  Z.land c m = 0 -> Z.land c 255 = c ->
  Z.land (merge old m x) c = Z.land old c.
Proof.
  intros Hcm Hc. unfold merge. rewrite uint8_land.
  apply Z.bits_inj'. intros k Hk.
  assert (Hk1 : Z.testbit c k && Z.testbit m k = false)
    by (rewrite <- Z.land_spec, Hcm; apply Z.bits_0).
  assert (Hk2 : Z.testbit c k && Z.testbit 255 k = Z.testbit c k)
    by (now rewrite <- Z.land_spec, Hc).
  rewrite !Z.land_spec, Z.lor_spec, !Z.land_spec, Z.lnot_spec by assumption.
  destruct (Z.testbit old k), (Z.testbit m k), (Z.testbit 255 k), (Z.testbit x k),
    (Z.testbit c k); simpl in *; congruence.
Qed.

Lemma field_mask_range j cur : 0 <= field_mask j cur < 256.
Proof. apply uint8_range. Qed.

Lemma tail_mask_range cur : 0 <= tail_mask cur < 256.
Proof. apply uint8_range. Qed.

Lemma In_Zrange lo n x : lo <= x < lo + Z.of_nat n -> In x (Zrange lo n).
Proof.
  intros H. unfold Zrange. apply in_map_iff.
  exists (Z.to_nat (x - lo)). split; [lia|]. apply in_seq. lia.
Qed.

Lemma all_cases_sound P :
  all_cases P = true ->
  forall v j n, 0 <= v < 256 -> 0 <= j < 8 -> 0 <= n <= 8 -> P v j n = true.
Proof.
  unfold all_cases. intros H v j n Hv Hj Hn.
  rewrite forallb_forall in H. specialize (H v (In_Zrange 0 256 v ltac:(lia))).
  rewrite forallb_forall in H. specialize (H j (In_Zrange 0 8 j ltac:(lia))).
  rewrite forallb_forall in H. exact (H n (In_Zrange 0 9 n ltac:(lia))).
Qed.

(** The value read back from one byte. *)
Lemma read_back_within v j n :
  0 <= v < 256 -> 0 <= j < 8 -> 1 <= n <= 8 -> j + n <= 8 ->
  right_align
    (uint8 (Z.shiftl (Z.land (Z.shiftr (left_align v n) j) (field_mask j n)) j)) n
  = v mod 2 ^ n.
Proof.
  intros Hv Hj Hn Hjn.
  pose (P := fun v j n : Z =>
    implb ((1 <=? n) && (j + n <=? 8))
      (right_align
         (uint8 (Z.shiftl (Z.land (Z.shiftr (left_align v n) j) (field_mask j n)) j)) n
       =? v mod 2 ^ n)).
  assert (H : P v j n = true)
    by (apply all_cases_sound; [vm_compute; reflexivity | lia..]).
  unfold P in H.
  replace ((1 <=? n) && (j + n <=? 8)) with true in H
    by Zb.
  now apply Z.eqb_eq in H.
Qed.

(** The value read back from two adjacent bytes. *)
Lemma read_back_spanning v j n :
  0 <= v < 256 -> 0 <= j < 8 -> 1 <= n <= 8 -> 8 < j + n ->
  right_align
    (uint8 (Z.lor
       (uint8 (Z.shiftl
          (Z.land (Z.shiftr (left_align v n) j) (field_mask j (8 - j))) j))
       (Z.shiftr
          (Z.land (uint8 (Z.shiftl (left_align v n) (8 - j)))
                  (tail_mask (n - (8 - j))))
          (BITS_PER_BYTE - j)))) n
  = v mod 2 ^ n.
Proof.
  intros Hv Hj Hn Hjn.
  pose (P := fun v j n : Z =>
    implb ((1 <=? n) && (8 <? j + n))
      (right_align
        (uint8 (Z.lor
           (uint8 (Z.shiftl
              (Z.land (Z.shiftr (left_align v n) j) (field_mask j (8 - j))) j))
           (Z.shiftr
              (Z.land (uint8 (Z.shiftl (left_align v n) (8 - j)))
                      (tail_mask (n - (8 - j))))
              (BITS_PER_BYTE - j)))) n
       =? v mod 2 ^ n)).
  assert (H : P v j n = true)
    by (apply all_cases_sound; [vm_compute; reflexivity | lia..]).
  unfold P in H.
  replace ((1 <=? n) && (8 <? j + n)) with true in H
    by Zb.
  now apply Z.eqb_eq in H.
Qed.

End ByteOps.

(** ** Accesses that succeed *)

Lemma offset_split offset :
  0 <= offset ->
  0 <= DECL_BYTE_OFFSET offset /\
  0 <= DECL_BITS_OFFSET offset < 8 /\
  offset = 8 * DECL_BYTE_OFFSET offset + DECL_BITS_OFFSET offset.
Proof.
  intros H. unfold DECL_BYTE_OFFSET, DECL_BITS_OFFSET, BITS_PER_BYTE.
  pose proof (Z.div_mod offset 8 ltac:(lia)).
  pose proof (Z.mod_pos_bound offset 8 ltac:(lia)).
  pose proof (Z.div_pos offset 8 H ltac:(lia)). lia.
Qed.

Lemma load_Some bs a i v :
  array bs = Some a -> 0 <= i -> a !! Z.to_nat i = Some v -> load bs i = Done v.
Proof.
  intros Ha Hi Hv. unfold load, peek. rewrite Ha.
  destruct (Z.ltb_spec i 0); [lia|]. now rewrite Hv.
Qed.

Lemma store_Some bs a i old v :
  array bs = Some a -> 0 <= i -> a !! Z.to_nat i = Some old ->
  store bs i v = Done (mkBitStream (Some (<[Z.to_nat i := uint8 v]> a)) (nbits bs)).
Proof.
  intros Ha Hi Hold. unfold store, poke. rewrite Ha.
  apply lookup_lt_Some in Hold.
  replace ((0 <=? i) && (i <? Z.of_nat (length a))) with true; [reflexivity|].
  Zb.
Qed.

Lemma MIN_l a b : a < b -> MIN a b = a.
Proof. intros H. unfold MIN. destruct (Z.ltb_spec a b); lia. Qed.

Lemma MIN_r a b : b <= a -> MIN a b = b.
Proof. intros H. unfold MIN. destruct (Z.ltb_spec a b); lia. Qed.

(** ** What [BitStreamPutByte] writes *)

Section PutByte.

Variables (bs : BitStream) (a : list Z) (value offset n : Z).
Hypothesis Harr : array bs = Some a.
Hypothesis Hoff : 0 <= offset.
Hypothesis Hn : 0 <= n <= 8.

Let i := DECL_BYTE_OFFSET offset.
Let j := DECL_BITS_OFFSET offset.

(** The field lies in one byte. *)
Lemma PutByte_within old :
  j + n <= 8 ->
  a !! Z.to_nat i = Some old ->
  BitStreamPutByte bs value offset n =
    Done (mkBitStream
            (Some (<[Z.to_nat i :=
                       merge old (field_mask j n) (Z.shiftr (left_align value n) j)]> a))
            (nbits bs), n).
Proof.
  intros Hjn Hold.
  destruct (offset_split offset Hoff) as (Hi & Hj & _). fold i j in Hi, Hj.
  unfold BitStreamPutByte. fold i j. cbv zeta.
  rewrite (MIN_r (BITS_PER_BYTE - j) n) by (unfold BITS_PER_BYTE; lia).
  rewrite (uint16_small n) by lia.
  rewrite (load_Some bs a i old Harr Hi Hold). cbn [bind].
  rewrite (store_Some bs a i old _ Harr Hi Hold). cbn [bind].
  rewrite Z.ltb_irrefl. rewrite Z.add_0_l, (uint16_small n) by lia.
  reflexivity.
Qed.

(** The field spans two bytes. *)
Lemma PutByte_spanning old old1 :
  8 < j + n ->
  a !! Z.to_nat i = Some old ->
  a !! Z.to_nat (i + 1) = Some old1 ->
  BitStreamPutByte bs value offset n =
    Done (mkBitStream
            (Some (<[Z.to_nat (i + 1) :=
                       merge old1 (tail_mask (n - (8 - j)))
                             (uint8 (Z.shiftl (left_align value n) (8 - j)))]>
                   (<[Z.to_nat i :=
                        merge old (field_mask j (8 - j))
                              (Z.shiftr (left_align value n) j)]> a)))
            (nbits bs), n).
Proof.
  intros Hjn Hold Hold1.
  destruct (offset_split offset Hoff) as (Hi & Hj & _). fold i j in Hi, Hj.
  unfold BitStreamPutByte. fold i j. cbv zeta.
  rewrite (MIN_l (BITS_PER_BYTE - j) n) by (unfold BITS_PER_BYTE; lia).
  change (BITS_PER_BYTE - j) with (8 - j).
  rewrite (uint16_small (8 - j)) by lia.
  rewrite (load_Some bs a i old Harr Hi Hold). cbn [bind].
  rewrite (store_Some bs a i old _ Harr Hi Hold). cbn [bind].
  destruct (Z.ltb_spec (8 - j) n) as [_|]; [|lia].
  rewrite (uint16_small (n - (8 - j))) by lia.
  assert (Hne : Z.to_nat i <> Z.to_nat (i + 1)) by lia.
  erewrite load_Some; [| reflexivity | lia |
    rewrite list_lookup_insert_ne by exact Hne; exact Hold1].
  cbn [bind].
  erewrite store_Some; [| reflexivity | lia |
    rewrite list_lookup_insert_ne by exact Hne; exact Hold1].
  cbn [bind nbits].
  rewrite Z.add_0_l, (uint16_small (8 - j)) by lia.
  replace (8 - j + (n - (8 - j))) with n by lia.
  rewrite (uint16_small n) by lia.
  reflexivity.
Qed.

End PutByte.

(** ** What [BitStreamGetByte] reads *)

Section GetByte.

Variables (bs : BitStream) (a : list Z) (byte0 offset n : Z).
Hypothesis Harr : array bs = Some a.
Hypothesis Hoff : 0 <= offset.
Hypothesis Hn : 0 <= n <= 8.
Hypothesis Hin : offset + n <= nbits bs.

Let i := DECL_BYTE_OFFSET offset.
Let j := DECL_BITS_OFFSET offset.

Lemma GetByte_within old :
  j + n <= 8 ->
  a !! Z.to_nat i = Some old ->
  BitStreamGetByte bs byte0 offset n =
    Done (right_align (uint8 (Z.shiftl (Z.land old (field_mask j n)) j)) n, n).
Proof.
  intros Hjn Hold.
  destruct (offset_split offset Hoff) as (Hi & Hj & _). fold i j in Hi, Hj.
  unfold BitStreamGetByte. fold i j. cbv zeta.
  rewrite Z.gtb_ltb. destruct (Z.ltb_spec (nbits bs) (offset + n)); [lia|].
  rewrite (MIN_r (BITS_PER_BYTE - j) n) by (unfold BITS_PER_BYTE; lia).
  rewrite (uint16_small n) by lia.
  rewrite (load_Some bs a i old Harr Hi Hold). cbn [bind].
  rewrite Z.ltb_irrefl. cbn [bind].
  rewrite Z.add_0_l, (uint16_small n) by lia.
  reflexivity.
Qed.

Lemma GetByte_spanning old old1 :
  8 < j + n ->
  a !! Z.to_nat i = Some old ->
  a !! Z.to_nat (i + 1) = Some old1 ->
  BitStreamGetByte bs byte0 offset n =
    Done (right_align
            (uint8 (Z.lor
               (uint8 (Z.shiftl (Z.land old (field_mask j (8 - j))) j))
               (Z.shiftr (Z.land old1 (tail_mask (n - (8 - j))))
                         (BITS_PER_BYTE - j)))) n, n).
Proof.
  intros Hjn Hold Hold1.
  destruct (offset_split offset Hoff) as (Hi & Hj & _). fold i j in Hi, Hj.
  unfold BitStreamGetByte. fold i j. cbv zeta.
  rewrite Z.gtb_ltb. destruct (Z.ltb_spec (nbits bs) (offset + n)); [lia|].
  rewrite (MIN_l (BITS_PER_BYTE - j) n) by (unfold BITS_PER_BYTE; lia).
  change (BITS_PER_BYTE - j) with (8 - j).
  rewrite (uint16_small (8 - j)) by lia.
  rewrite (load_Some bs a i old Harr Hi Hold). cbn [bind].
  destruct (Z.ltb_spec (8 - j) n) as [_|]; [|lia].
  rewrite (uint16_small (n - (8 - j))) by lia.
  rewrite (load_Some bs a (i + 1) old1 Harr ltac:(lia) Hold1). cbn [bind].
  rewrite Z.add_0_l, (uint16_small (8 - j)) by lia.
  replace (8 - j + (n - (8 - j))) with n by lia.
  rewrite (uint16_small n) by lia.
  reflexivity.
Qed.

End GetByte.

(** ** The structural invariant of a buffer *)

Lemma nbytes_spec n : 0 <= n -> 8 * nbytes n - 8 < n <= 8 * nbytes n.
Proof.
  intros H. unfold nbytes, BITS_PER_BYTE.
  pose proof (Z.div_mod (n + 8 - 1) 8 ltac:(lia)).
  pose proof (Z.mod_pos_bound (n + 8 - 1) 8 ltac:(lia)). lia.
Qed.

(** Every bit below [nbits] lies in an allocated byte. *)
Lemma invariant_lookup bs k :
  invariant bs -> 0 <= k -> 8 * k < nbits bs ->
  exists a v, array bs = Some a /\ a !! Z.to_nat k = Some v.
Proof.
  unfold invariant. intros Hinv Hk Hlt.
  destruct (array bs) as [a|]; [|lia].
  destruct Hinv as [Hpos Hlen].
  pose proof (nbytes_spec (nbits bs) ltac:(lia)).
  destruct (lookup_lt_is_Some_2 a (Z.to_nat k) ltac:(lia)) as [v Hv].
  eauto.
Qed.

(** ** C1: writing then reading a field *)

(** C1. For every buffer satisfying the structural invariant, every width
    [n] with [1 <= n <= 8], every byte [value] and every bit offset from [0]
    to [nbits - n], [BitStreamPutByte] succeeds, reports [n] bits, and
    [BitStreamGetByte] at the same offset and width then returns the low
    [n] bits of [value] and reports [n] bits. *)
Theorem put_get_roundtrip bs value offset n byte0 :
  invariant bs ->
  0 <= value < 256 ->
  1 <= n <= 8 ->
  0 <= offset <= nbits bs - n ->
  exists bs',
    BitStreamPutByte bs value offset n = Done (bs', n) /\
    nbits bs' = nbits bs /\
    BitStreamGetByte bs' byte0 offset n = Done (value mod 2 ^ n, n).
Proof.
  intros Hinv Hv Hn Hoff.
  destruct (offset_split offset ltac:(lia)) as (Hi & Hj & Hsplit).
  set (i := DECL_BYTE_OFFSET offset) in *.
  set (j := DECL_BITS_OFFSET offset) in *.
  destruct (invariant_lookup bs i Hinv Hi ltac:(lia)) as (a & old & Harr & Hold).
  destruct (Z.le_gt_cases (j + n) 8) as [Hjn|Hjn].
  - eexists. split; [|split].
    + apply (PutByte_within bs a value offset n Harr); [lia..|exact Hold].
    + reflexivity.
    + erewrite GetByte_within;
        [| reflexivity | lia | lia | simpl; lia | exact Hjn
         | apply list_lookup_insert_eq; now apply lookup_lt_Some in Hold].
      fold i j. rewrite land_merge by apply field_mask_range.
      now rewrite read_back_within.
  - destruct (invariant_lookup bs (i + 1) Hinv ltac:(lia) ltac:(lia))
      as (a' & old1 & Harr' & Hold1).
    rewrite Harr in Harr'. injection Harr' as <-.
    assert (Hne : Z.to_nat i <> Z.to_nat (i + 1)) by lia.
    eexists. split; [|split].
    + apply (PutByte_spanning bs a value offset n Harr); [lia..|exact Hold|exact Hold1].
    + reflexivity.
    + erewrite GetByte_spanning;
        [| reflexivity | lia | lia | simpl; lia | lia
         | rewrite list_lookup_insert_ne by lia; apply list_lookup_insert_eq;
           now apply lookup_lt_Some in Hold
         | apply list_lookup_insert_eq; rewrite length_insert;
           now apply lookup_lt_Some in Hold1].
      fold i j. rewrite !land_merge by (apply field_mask_range || apply tail_mask_range).
      now rewrite read_back_spanning.
Qed.

Lemma put_get_roundtrip_witness :
  exists bs',
    BitStreamPutByte (mkBitStream (Some [0xAB; 0xCD; 0xEF]) 24) 0x12 12 7
      = Done (bs', 7) /\
    nbits bs' = 24 /\
    BitStreamGetByte bs' 0 12 7 = Done (0x12 mod 2 ^ 7, 7).
Proof.
  apply (put_get_roundtrip (mkBitStream (Some [0xAB; 0xCD; 0xEF]) 24) 0x12 12 7 0).
  - split; reflexivity.
  - lia.
  - lia.
  - simpl. lia.
Defined.

(** ** C4: reads past the end *)

Lemma GetByte_out_of_range bs byte0 offset n :
  offset + n > nbits bs -> BitStreamGetByte bs byte0 offset n = Done (byte0, 0).
Proof.
  intros H. unfold BitStreamGetByte.
  rewrite Z.gtb_ltb. destruct (Z.ltb_spec (nbits bs) (offset + n)); [reflexivity | lia].
Qed.

Lemma Realloc_nbits h bs buffer n bs' :
  BitStreamRealloc h (Some bs) buffer n = Some bs' -> nbits bs' = n.
Proof. unfold BitStreamRealloc. intros H. injection H as <-. reflexivity. Qed.

(** C4. For every buffer and every width [n] with [1 <= n <= 8],
    [BitStreamGetByte] reports zero bits read (and leaves the output byte
    as it was) whenever [offset + n > nbits]; and once [BitStreamRealloc]
    has set a buffer to 0 bits, every read at any offset does so. *)
Theorem get_bits_rejects_out_of_range bs byte0 offset n :
  1 <= n <= 8 ->
  (offset + n > nbits bs -> BitStreamGetByte bs byte0 offset n = Done (byte0, 0)) /\
  (forall h buffer bs',
      0 <= offset ->
      BitStreamRealloc h (Some bs) buffer 0 = Some bs' ->
      BitStreamGetByte bs' byte0 offset n = Done (byte0, 0)).
Proof.
  intros Hn. split.
  - apply GetByte_out_of_range.
  - intros h buffer bs' Hoff Hre. apply GetByte_out_of_range.
    rewrite (Realloc_nbits _ _ _ _ _ Hre). lia.
Qed.

Lemma get_bits_rejects_out_of_range_witness :
  (20 + 5 > 24 ->
   BitStreamGetByte (mkBitStream (Some [0xAB; 0xCD; 0xEF]) 24) 0x77 20 5
     = Done (0x77, 0)) /\
  (forall h buffer bs',
      0 <= 20 ->
      BitStreamRealloc h (Some (mkBitStream (Some [0xAB; 0xCD; 0xEF]) 24)) buffer 0
        = Some bs' ->
      BitStreamGetByte bs' 0x77 20 5 = Done (0x77, 0)).
Proof.
  apply (get_bits_rejects_out_of_range
           (mkBitStream (Some [0xAB; 0xCD; 0xEF]) 24) 0x77 20 5).
  lia.
Defined.

(** ** C5: a write across a byte boundary *)

(** C5. For every buffer and every byte index [k] with bytes [k] and [k+1]
    in the storage, writing 8 bits at bit offset [8*k + 4] succeeds, reports
    8 bits and changes the storage only in bytes [k] and [k+1]: every other
    byte and the length are unchanged, the most significant nibble of byte
    [k] and the least significant nibble of byte [k+1] are unchanged, the
    low nibble of byte [k] receives the high nibble of the value and the
    high nibble of byte [k+1] its low nibble. *)
Theorem put_byte_boundary_frame bs a (k : nat) value old old1 :
  array bs = Some a ->
  a !! k = Some old ->
  a !! S k = Some old1 ->
  exists a' new new1,
    BitStreamPutByte bs value (8 * Z.of_nat k + 4) 8
      = Done (mkBitStream (Some a') (nbits bs), 8) /\
    length a' = length a /\
    (forall m : nat, m <> k -> m <> S k -> a' !! m = a !! m) /\
    a' !! k = Some new /\
    a' !! S k = Some new1 /\
    Z.land new 0xF0 = Z.land old 0xF0 /\
    Z.land new 0x0F = Z.land (Z.shiftr value 4) 0x0F /\
    Z.land new1 0xF0 = Z.land (Z.shiftl value 4) 0xF0 /\
    Z.land new1 0x0F = Z.land old1 0x0F.
Proof.
  intros Harr Hold Hold1.
  assert (Hi : DECL_BYTE_OFFSET (8 * Z.of_nat k + 4) = Z.of_nat k).
  { unfold DECL_BYTE_OFFSET, BITS_PER_BYTE.
    rewrite Z.mul_comm, Z.div_add_l by lia. change (4 / 8) with 0. lia. }
  assert (Hj : DECL_BITS_OFFSET (8 * Z.of_nat k + 4) = 4).
  { unfold DECL_BITS_OFFSET, BITS_PER_BYTE.
    rewrite Z.add_comm, Z.mul_comm, Z.mod_add by lia. reflexivity. }
  pose proof (PutByte_spanning bs a value (8 * Z.of_nat k + 4) 8 Harr
                ltac:(lia) ltac:(lia) old old1) as Hput.
  rewrite Hi, Hj in Hput.
  replace (Z.to_nat (Z.of_nat k + 1)) with (S k) in Hput by lia.
  rewrite Nat2Z.id in Hput.
  specialize (Hput ltac:(lia) Hold Hold1).
  change (left_align value 8) with value in Hput.
  change (field_mask 4 (8 - 4)) with 15 in Hput.
  change (tail_mask (8 - (8 - 4))) with 240 in Hput.
  change (8 - 4) with 4 in Hput.
  pose proof (lookup_lt_Some _ _ _ Hold) as Hlt.
  pose proof (lookup_lt_Some _ _ _ Hold1) as Hlt1.
  eexists _, _, _. split; [exact Hput|].
  split; [now rewrite !length_insert|].
  split; [intros m Hm Hm1; now rewrite !list_lookup_insert_ne by congruence|].
  split; [rewrite list_lookup_insert_ne by lia; now apply list_lookup_insert_eq|].
  split; [apply list_lookup_insert_eq; now rewrite length_insert|].
  split; [now apply land_merge_frame|].
  split; [apply land_merge; lia|].
  split.
  - rewrite land_merge by lia. rewrite uint8_land, <- Z.land_assoc. reflexivity.
  - now apply land_merge_frame.
Qed.

Lemma put_byte_boundary_frame_witness :
  exists a' new new1,
    BitStreamPutByte (mkBitStream (Some [0xAB; 0xCD; 0xEF]) 24) 0x12
                     (8 * Z.of_nat 1 + 4) 8
      = Done (mkBitStream (Some a') 24, 8) /\
    length a' = 3%nat /\
    (forall m : nat, m <> 1%nat -> m <> 2%nat ->
                     a' !! m = [0xAB; 0xCD; 0xEF] !! m) /\
    a' !! 1%nat = Some new /\
    a' !! 2%nat = Some new1 /\
    Z.land new 0xF0 = Z.land 0xCD 0xF0 /\
    Z.land new 0x0F = Z.land (Z.shiftr 0x12 4) 0x0F /\
    Z.land new1 0xF0 = Z.land (Z.shiftl 0x12 4) 0xF0 /\
    Z.land new1 0x0F = Z.land 0xEF 0x0F.
Proof.
  apply (put_byte_boundary_frame
           (mkBitStream (Some [0xAB; 0xCD; 0xEF]) 24) [0xAB; 0xCD; 0xEF]
           1%nat 0x12 0xCD 0xEF); reflexivity.
Defined.

(** ** BitStreamFill *)

Lemma merge_full old b : merge old 255 b = uint8 b.
Proof.
  unfold merge. rewrite !uint8_land.
  apply Z.bits_inj'. intros k Hk.
  rewrite !Z.land_spec, Z.lor_spec, !Z.land_spec, Z.lnot_spec by assumption.
  destruct (Z.testbit old k), (Z.testbit 255 k), (Z.testbit b k); reflexivity.
Qed.

Lemma aligned_offset (m : nat) :
  DECL_BYTE_OFFSET (8 * Z.of_nat m) = Z.of_nat m /\
  DECL_BITS_OFFSET (8 * Z.of_nat m) = 0.
Proof.
  unfold DECL_BYTE_OFFSET, DECL_BITS_OFFSET, BITS_PER_BYTE. split.
  - rewrite Z.mul_comm. apply Z.div_mul. lia.
  - rewrite Z.mul_comm. apply Z.mod_mul. lia.
Qed.

(** A whole byte written at a byte boundary. *)
Lemma PutByte_aligned bs a (m : nat) b old :
  array bs = Some a ->
  a !! m = Some old ->
  BitStreamPutByte bs b (8 * Z.of_nat m) BITS_PER_BYTE =
    Done (mkBitStream (Some (<[m := uint8 b]> a)) (nbits bs), 8).
Proof.
  intros Harr Hold.
  destruct (aligned_offset m) as [Hi Hj].
  pose proof (PutByte_within bs a b (8 * Z.of_nat m) 8 Harr ltac:(lia) ltac:(lia) old)
    as Hput.
  rewrite Hi, Hj, Nat2Z.id in Hput. specialize (Hput ltac:(lia) Hold).
  change (field_mask 0 8) with 255 in Hput.
  change (left_align b 8) with b in Hput.
  rewrite Z.shiftr_0_r, merge_full in Hput. exact Hput.
Qed.

Lemma fill_loop_exit inp bs c :
  nbits bs <= c -> fill_loop inp bs c = Done (bs, c).
Proof.
  intros H. destruct inp; simpl; destruct (Z.ltb_spec c (nbits bs)); (lia || reflexivity).
Qed.

Section Fill.

Variable N : Z.                      (* the bit length of the buffer *)
Hypothesis HN : 0 <= N <= 65528.

Let nb : nat := Z.to_nat (nbytes N).

Lemma nb_spec : 8 * Z.of_nat nb - 8 < N <= 8 * Z.of_nat nb.
Proof.
  pose proof (nbytes_spec N ltac:(lia)). subst nb. lia.
Qed.

(** The loop, entered with [m] bytes already copied. *)
Lemma fill_loop_spec inp : forall (a : list Z) (m : nat),
  length a = nb ->
  (m <= nb)%nat ->
  (nb - m <= length inp)%nat ->
  fill_loop inp (mkBitStream (Some a) N) (8 * Z.of_nat m) =
    Done (mkBitStream (Some (take m a ++ (uint8 <$> take (nb - m) inp))) N,
          8 * Z.of_nat nb).
Proof.
  pose proof nb_spec as Hnb.
  induction inp as [|b inp IH]; intros a m Hlen Hm Hinp.
  - simpl in Hinp. assert (m = nb) by lia. subst m.
    simpl. destruct (Z.ltb_spec (8 * Z.of_nat nb) N); [lia|].
    rewrite Nat.sub_diag, take_0, fmap_nil, app_nil_r.
    now rewrite take_ge by lia.
  - cbn [fill_loop nbits].
    destruct (Z.ltb_spec (8 * Z.of_nat m) N) as [Hlt|Hge].
    + assert (Hm' : (m < nb)%nat) by lia.
      destruct (lookup_lt_is_Some_2 a m ltac:(lia)) as [old Hold].
      rewrite (PutByte_aligned (mkBitStream (Some a) N) a m b old eq_refl Hold).
      cbn [bind fst snd nbits].
      replace (uint16 (8 * Z.of_nat m + 8)) with (8 * Z.of_nat (S m))
        by (rewrite uint16_small; lia).
      rewrite IH; [| now rewrite length_insert | lia | simpl in Hinp; lia].
      replace (nb - m)%nat with (S (nb - S m)) by lia.
      rewrite (take_S_r (<[m:=uint8 b]> a) m (uint8 b))
        by (apply list_lookup_insert_eq; lia).
      rewrite take_insert_ge by lia.
      rewrite firstn_cons, fmap_cons, <- app_assoc. reflexivity.
    + assert (m = nb) by lia. subst m.
      rewrite Nat.sub_diag, take_0, fmap_nil, app_nil_r.
      now rewrite take_ge by lia.
Qed.

Lemma Fill_nonempty a inp n_bits :
  length a = nb ->
  (nb <= length inp)%nat ->
  BitStreamFill (mkBitStream (Some a) N) inp n_bits =
    Done (mkBitStream (Some (uint8 <$> take nb inp)) N, 8 * Z.of_nat nb).
Proof.
  intros Hlen Hinp. unfold BitStreamFill.
  change 0 with (8 * Z.of_nat 0).
  rewrite (fill_loop_spec inp a 0%nat Hlen) by lia.
  now rewrite take_0, Nat.sub_0_r.
Qed.

End Fill.

(** ** C10: what [BitStreamFill] copies and returns *)

(** C10 (amended). The bit-count argument of [BitStreamFill] has no effect.
    For every buffer that satisfies the invariant and has at most 65528
    bits, given at least [nbytes (nbits bs)] source bytes, the call copies
    exactly the first [nbytes (nbits bs)] source bytes over the whole
    storage (the last one also over the bits past [nbits]), leaves [nbits]
    as it was and returns [nbits] rounded up to a multiple of 8. *)
Theorem fill_copies_whole_bytes bs inp n1 n2 :
  invariant bs ->
  nbits bs <= 65528 ->
  nbytes (nbits bs) <= Z.of_nat (length inp) ->
  BitStreamFill bs inp n1 = BitStreamFill bs inp n2 /\
  exists bs',
    BitStreamFill bs inp n1 = Done (bs', 8 * nbytes (nbits bs)) /\
    nbits bs' = nbits bs /\
    array bs' = (fun a => uint8 <$> take (length a) inp) <$> array bs.
Proof.
  intros Hinv HN Hinp. split; [reflexivity|].
  destruct bs as [[a|] N]; unfold invariant in Hinv; simpl in *.
  - destruct Hinv as [Hpos Hlen].
    pose proof (nbytes_spec N ltac:(lia)) as Hnb.
    eexists. split; [|split].
    + rewrite (Fill_nonempty N ltac:(lia) a inp n1) by lia.
      replace (Z.to_nat (nbytes N)) with (length a) by lia.
      repeat f_equal. lia.
    + reflexivity.
    + reflexivity.
  - subst N. eexists. split; [|split].
    + unfold BitStreamFill. rewrite fill_loop_exit by (simpl; lia). reflexivity.
    + reflexivity.
    + reflexivity.
Qed.

Lemma fill_copies_whole_bytes_witness :
  BitStreamFill (mkBitStream (Some [0xAB; 0xCD; 0xEF]) 20) [1; 2; 3; 4] 20
    = BitStreamFill (mkBitStream (Some [0xAB; 0xCD; 0xEF]) 20) [1; 2; 3; 4] 0 /\
  exists bs',
    BitStreamFill (mkBitStream (Some [0xAB; 0xCD; 0xEF]) 20) [1; 2; 3; 4] 20
      = Done (bs', 8 * nbytes 20) /\
    nbits bs' = 20 /\
    array bs' = Some (uint8 <$> take 3 [1; 2; 3; 4]).
Proof.
  apply (fill_copies_whole_bytes
           (mkBitStream (Some [0xAB; 0xCD; 0xEF]) 20) [1; 2; 3; 4] 20 0).
  - split; reflexivity.
  - simpl. lia.
  - vm_compute. discriminate.
Defined.

(** Above 65528 bits the rounded-up count does not fit [uint16_t]: the
    counter wraps to 0 after the last byte and the loop goes on reading
    past the source. *)

Lemma fill_loop_wraps N inp : forall (a : list Z) (m : nat),
  65528 < N < 65536 ->
  length a = Z.to_nat 8192 ->
  (m < Z.to_nat 8192)%nat ->
  fill_loop inp (mkBitStream (Some a) N) (8 * Z.of_nat m) = Crash OutOfBounds.
Proof.
  induction inp as [|b inp IH]; intros a m HN Hlen Hm; cbn [fill_loop nbits];
    (destruct (Z.ltb_spec (8 * Z.of_nat m) N); [|lia]); [reflexivity|].
  destruct (lookup_lt_is_Some_2 a m ltac:(lia)) as [old Hold].
  rewrite (PutByte_aligned (mkBitStream (Some a) N) a m b old eq_refl Hold).
  cbn [bind fst snd nbits].
  destruct (Nat.eq_dec (S m) (Z.to_nat 8192)) as [Hlast|Hmore].
  - replace (uint16 (8 * Z.of_nat m + 8)) with (8 * Z.of_nat 0).
    + apply IH; [lia | now rewrite length_insert | lia].
    + replace (8 * Z.of_nat m + 8) with 65536 by lia. reflexivity.
  - replace (uint16 (8 * Z.of_nat m + 8)) with (8 * Z.of_nat (S m))
      by (rewrite uint16_small; lia).
    apply IH; [lia | now rewrite length_insert | lia].
Qed.

(** C10, as stated, fails on a buffer of 65535 bits: the call does not
    return the rounded-up length, it runs off the end of the source. *)
Lemma fill_overflows_at_65535 :
  invariant full_buffer /\
  nbytes (nbits full_buffer) <= Z.of_nat (length full_storage) /\
  BitStreamFill full_buffer full_storage 65535 = Crash OutOfBounds.
Proof.
  assert (Hlen : length full_storage = Z.to_nat 8192)
    by apply length_replicate.
  split; [|split].
  - unfold invariant, full_buffer. cbn [array nbits]. rewrite Hlen.
    split; reflexivity.
  - cbn [full_buffer nbits]. rewrite Hlen. vm_compute. discriminate.
  - unfold BitStreamFill, full_buffer. change 0 with (8 * Z.of_nat 0).
    apply fill_loop_wraps; [lia | exact Hlen | lia].
Qed.

(** ** C6: byte-aligned reads after a fill *)

Lemma read_aligned b n :
  0 <= b < 256 -> 0 <= n <= 8 ->
  right_align (uint8 (Z.shiftl (Z.land b (field_mask 0 n)) 0)) n = Z.shiftr b (8 - n).
Proof.
  intros Hb Hn.
  pose (P := fun v (_ : Z) n =>
    right_align (uint8 (Z.shiftl (Z.land v (field_mask 0 n)) 0)) n
    =? Z.shiftr v (8 - n)).
  assert (H : P b 0 n = true)
    by (apply all_cases_sound; [vm_compute; reflexivity | lia..]).
  now apply Z.eqb_eq in H.
Qed.

(** C6. For every byte array [B], every buffer of [8 * length B] bits that
    satisfies the invariant, every index [k] into [B] and every width [n]
    in [0, 8]: filling the buffer from [B] succeeds and a subsequent
    [BitStreamGetByte] at offset [8*k] of width [n] returns, right-aligned,
    the top [n] bits of [B[k]] and reports [n] bits. *)
Theorem get_after_fill bs B (k : nat) b n cnt byte0 :
  invariant bs ->
  nbits bs = 8 * Z.of_nat (length B) ->
  nbits bs < 65536 ->
  0 <= n <= 8 ->
  B !! k = Some b ->
  0 <= b < 256 ->
  exists bs',
    BitStreamFill bs B cnt = Done (bs', nbits bs) /\
    BitStreamGetByte bs' byte0 (8 * Z.of_nat k) n = Done (Z.shiftr b (8 - n), n).
Proof.
  intros Hinv HN Hmax Hn Hk Hb.
  pose proof (lookup_lt_Some _ _ _ Hk) as Hlt.
  destruct bs as [[a|] N]; unfold invariant in Hinv; simpl in *; [|lia].
  destruct Hinv as [Hpos Hlen].
  assert (HnbN : nbytes N = Z.of_nat (length B)).
  { pose proof (nbytes_spec N ltac:(lia)). lia. }
  eexists. split.
  - rewrite (Fill_nonempty N ltac:(lia) a B cnt) by lia.
    rewrite HnbN, Nat2Z.id. repeat f_equal. lia.
  - destruct (aligned_offset k) as [Hi Hj].
    rewrite take_ge by lia.
    erewrite GetByte_within;
      [| reflexivity | lia | exact Hn | simpl; lia | rewrite Hj; lia
       | rewrite Hi, Nat2Z.id, list_lookup_fmap, Hk; reflexivity].
    rewrite Hj, (uint8_small b) by lia.
    now rewrite read_aligned.
Qed.

Lemma get_after_fill_witness :
  exists bs',
    BitStreamFill (mkBitStream (Some [0; 0; 0]) 24) [0xAB; 0xCD; 0xEF] 24
      = Done (bs', 24) /\
    BitStreamGetByte bs' 0 (8 * Z.of_nat 1) 3 = Done (Z.shiftr 0xCD (8 - 3), 3).
Proof.
  apply (get_after_fill (mkBitStream (Some [0; 0; 0]) 24) [0xAB; 0xCD; 0xEF]
                        1%nat 0xCD 3 24 0).
  - split; reflexivity.
  - reflexivity.
  - simpl. lia.
  - lia.
  - reflexivity.
  - lia.
Defined.

(** ** Hexadecimal digits *)

(** [xtoi] on every character: the lower-case set is converted, everything
    else reaches [assert(0)]. *)
Lemma xtoi_cases (c : ascii) :
  xtoi (chr c) = if accepted c then Done (hex_value c) else Crash AssertFailed.
Proof.
  destruct c as [[] [] [] [] [] [] [] []]; vm_compute; reflexivity.
Qed.

Lemma accepted_facts (c : ascii) :
  accepted c = true ->
  Ascii.eqb c Ascii.zero = false /\ 0 <= hex_value c < 16 /\ is_hex_digit c = true.
Proof.
  destruct c as [[] [] [] [] [] [] [] []]; intros H; vm_compute in H;
    try discriminate H; vm_compute; repeat split; congruence.
Qed.

Lemma upper_hex_not_accepted (c : ascii) :
  is_upper_hex c = true -> is_hex_digit c = true /\ accepted c = false.
Proof.
  destruct c as [[] [] [] [] [] [] [] []]; intros H; vm_compute in H;
    try discriminate H; vm_compute; split; reflexivity.
Qed.

(** Two nibbles packed into a byte, as [strtox] does it. *)
Lemma pack_nibbles h l :
  0 <= h < 16 -> 0 <= l < 16 ->
  uint8 (Z.lor (Z.shiftl (int8 h) 4) (int8 l)) = 16 * h + l.
Proof.
  intros Hh Hl.
  pose (P := fun v (_ _ : Z) =>
    uint8 (Z.lor (Z.shiftl (int8 (v / 16)) 4) (int8 (v mod 16))) =? v).
  assert (H : P (16 * h + l) 0 0 = true)
    by (apply all_cases_sound; [vm_compute; reflexivity | lia..]).
  apply Z.eqb_eq in H.
  replace ((16 * h + l) / 16) with h in H by (apply Z.div_unique with l; lia).
  replace ((16 * h + l) mod 16) with l in H by (apply Z.mod_unique with h; lia).
  exact H.
Qed.

(** ** Strings as character arrays *)

Lemma get_lookup s : forall n, String.get n s = list_ascii_of_string s !! n.
Proof.
  induction s as [|c s IH]; intros [|n]; simpl; try reflexivity. apply IH.
Qed.

Lemma length_list_ascii s : length (list_ascii_of_string s) = String.length s.
Proof. induction s as [|c s IH]; simpl; congruence. Qed.

Lemma strlen_accepted s :
  Forall (fun c => accepted c = true) (list_ascii_of_string s) ->
  strlen s = String.length s.
Proof.
  induction s as [|c s IH]; simpl; intros H; [reflexivity|].
  inversion H as [|? ? Hc Hs]; subst.
  destruct (accepted_facts c Hc) as (-> & _). now rewrite IH.
Qed.

Lemma char_at_lookup s (n : nat) c :
  list_ascii_of_string s !! n = Some c -> char_at s (Z.of_nat n) = Done (chr c).
Proof.
  intros H. unfold char_at.
  destruct (Z.ltb_spec (Z.of_nat n) 0); [lia|].
  now rewrite Nat2Z.id, get_lookup, H.
Qed.

(** ** What [strtox] writes and returns *)

Lemma poke_Some (a : list Z) (i : nat) v :
  (i < length a)%nat ->
  poke (Some a) (Z.of_nat i) v = Done (Some (<[i := uint8 v]> a)).
Proof.
  intros H. unfold poke.
  replace ((0 <=? Z.of_nat i) && (Z.of_nat i <? Z.of_nat (length a))) with true.
  - now rewrite Nat2Z.id.
  - Zb.
Qed.

Section Strtox.

Variables (s : string) (size : Z).

Let cs : list ascii := list_ascii_of_string s.
Let len : Z := Z.of_nat (length cs).

Hypothesis Hlen : len <= 32767.
Hypothesis Hacc : Forall (fun c => accepted c = true) cs.

Lemma digit_at (i : nat) :
  (i < length cs)%nat ->
  exists c, cs !! i = Some c /\
            (let* c := char_at s (Z.of_nat i) in xtoi c) = Done (hex_value c) /\
            0 <= hex_value c < 16.
Proof.
  intros Hi. destruct (lookup_lt_is_Some_2 cs i Hi) as [c Hc].
  pose proof (Forall_lookup_1 _ _ _ _ Hacc Hc) as Ha. cbv beta in Ha.
  exists c. split; [exact Hc|]. split.
  - rewrite (char_at_lookup s i c Hc). cbn [bind]. now rewrite xtoi_cases, Ha.
  - apply (accepted_facts c Ha).
Qed.

(** The loop, entered at character [i] with [j] bytes written and [p]
    pairs left, when the destination and [size] have room for all. *)
Lemma strtox_loop_spec : forall (p fuel i j : nat) (out : list Z),
  (i + 2 * p = length cs)%nat ->
  (p <= fuel)%nat ->
  (j <= i)%nat ->
  (j + p <= length out)%nat ->
  Z.of_nat (j + p) <= size ->
  strtox_loop fuel s len size (Z.of_nat i) (Z.of_nat j) (Some out) =
    Done (Some (take j out ++ decode_pairs (drop i cs) ++ drop (j + p) out),
          if (p =? 0)%nat then Z.of_nat j
          else if size =? Z.of_nat (j + p) then -1 else Z.of_nat (j + p)).
Proof.
  induction p as [|p IH]; intros fuel i j out Hi Hfuel Hji Hout Hsize.
  - assert (Hexit : (Z.of_nat i <? len) = false) by (apply Z.ltb_ge; lia).
    destruct fuel; cbn [strtox_loop]; rewrite Hexit;
      rewrite drop_ge by lia; cbn [decode_pairs app];
      now rewrite Nat.add_0_r, take_drop.
  - destruct fuel as [|fuel]; [lia|]. cbn [strtox_loop].
    assert (Hloop : (Z.of_nat i <? len) = true) by (apply Z.ltb_lt; lia).
    rewrite Hloop.
    destruct (digit_at i ltac:(lia)) as (c1 & Hc1 & Hx1 & Hv1).
    destruct (digit_at (S i) ltac:(lia)) as (c2 & Hc2 & Hx2 & Hv2).
    replace (Z.of_nat i + 1) with (Z.of_nat (S i)) by lia.
    apply bind_Done in Hx1 as (k1 & Hk1 & Hx1).
    apply bind_Done in Hx2 as (k2 & Hk2 & Hx2).
    rewrite Hk1. cbn [bind]. rewrite Hx1. cbn [bind].
    rewrite Hk2. cbn [bind]. rewrite Hx2. cbn [bind].
    rewrite (poke_Some out j) by lia. cbn [bind].
    rewrite pack_nibbles by assumption.
    replace (int16 (Z.of_nat j + 1)) with (Z.of_nat (S j))
      by (rewrite int16_small; lia).
    replace (int16 (Z.of_nat i + 2)) with (Z.of_nat (S (S i)))
      by (rewrite int16_small; lia).
    assert (Hdrop : drop i cs = c1 :: c2 :: drop (S (S i)) cs)
      by (now rewrite (drop_S cs c1 i Hc1), (drop_S cs c2 (S i) Hc2)).
    rewrite Hdrop. cbn [decode_pairs Nat.eqb].
    set (v := 16 * hex_value c1 + hex_value c2).
    rewrite Z.geb_leb.
    destruct (Z.leb_spec size (Z.of_nat (S j))) as [Hfull|Hroom].
    + assert (p = 0%nat) by lia. subst p.
      replace (size =? Z.of_nat (j + 1)) with true by Zb.
      rewrite drop_ge by lia. cbn [decode_pairs app].
      rewrite (insert_take_drop out j) by lia.
      replace (j + 1)%nat with (S j) by lia. reflexivity.
    + rewrite (IH fuel (S (S i)) (S j) (<[j:=v]> out));
        [| lia | lia | lia | rewrite length_insert; lia | lia].
      rewrite (take_S_r (<[j:=v]> out) j v) by (apply list_lookup_insert_eq; lia).
      rewrite take_insert_ge by lia.
      rewrite drop_insert_lt by lia.
      replace (S j + p)%nat with (j + S p)%nat by lia.
      rewrite <- app_assoc. cbn [app]. f_equal.
      destruct p as [|p]; cbn [Nat.eqb].
      * replace (size =? Z.of_nat (j + 1)) with false
          by Zb.
        f_equal. lia.
      * reflexivity.
Qed.

End Strtox.

(** ** The loop bound of [strtox] is never exhausted *)

Lemma bind_fuel {A B} (m : result A) (k : A -> result B) :
  m <> Crash OutOfFuel ->
  (forall a, m = Done a -> k a <> Crash OutOfFuel) ->
  bind m k <> Crash OutOfFuel.
Proof.
  destruct m as [a|f]; cbn [bind]; intros Hm Hk; [now apply Hk|].
  intros H. apply Hm. now injection H as ->.
Qed.

Lemma char_at_fuel s k : char_at s k <> Crash OutOfFuel.
Proof.
  unfold char_at. destruct (k <? 0); [discriminate|].
  destruct (String.get _ s); [discriminate|].
  destruct (k =? _); discriminate.
Qed.

Lemma xtoi_fuel c : xtoi c <> Crash OutOfFuel.
Proof.
  unfold xtoi.
  repeat match goal with |- context [if ?b then _ else _] => destruct b end;
    discriminate.
Qed.

Lemma poke_fuel p i v : poke p i v <> Crash OutOfFuel.
Proof.
  unfold poke. destruct p; [|discriminate].
  destruct (_ && _); discriminate.
Qed.

Lemma strtox_loop_fuel s len size :
  len <= 32767 ->
  forall (fuel p : nat) (i j : Z) out,
    0 <= i ->
    len - i = 2 * Z.of_nat p ->
    (p <= fuel)%nat ->
    strtox_loop fuel s len size i j out <> Crash OutOfFuel.
Proof.
  intros Hlen. induction fuel as [|fuel IH]; intros p i j out Hi Hp Hfuel;
    cbn [strtox_loop]; destruct (Z.ltb_spec i len) as [Hlt|Hge];
    try discriminate; [lia|].
  repeat (apply bind_fuel;
          [first [apply char_at_fuel | apply xtoi_fuel | apply poke_fuel]
          | intros ? _]).
  destruct (_ >=? size); [discriminate|].
  rewrite (int16_small (i + 2)) by lia.
  apply (IH (Nat.pred p)); lia.
Qed.

(** [strtox] returns or stops at a fault of the C program, on every input. *)
Lemma strtox_total s out size : strtox s out size <> Crash OutOfFuel.
Proof.
  unfold strtox.
  set (len := int16 (Z.of_nat (strlen s))).
  assert (Hr : -32768 <= len <= 32767).
  { subst len. unfold int16.
    pose proof (Z.mod_pos_bound (Z.of_nat (strlen s)) 65536 ltac:(lia)).
    destruct (Z.ltb_spec (Z.of_nat (strlen s) mod 65536) 32768); lia. }
  assert (Hexit : forall fuel i j o, len <= i ->
                    strtox_loop fuel s len size i j o <> Crash OutOfFuel).
  { intros fuel i j o Hle.
    destruct fuel; cbn [strtox_loop]; destruct (Z.ltb_spec i len);
      (lia || discriminate). }
  pose proof (Z.quot_rem' len 2) as Hqr.
  pose proof (Z.rem_bound_abs len 2 ltac:(lia)) as Hrb.
  destruct (Z.eqb_spec (Z.rem len 2) 0) as [Heven|Hodd]; cbn [negb bind].
  - destruct (Z.le_gt_cases len 0) as [Hneg|Hpos]; [now apply Hexit|].
    pose proof (Z.rem_nonneg len 2 ltac:(lia) ltac:(lia)).
    apply (strtox_loop_fuel s len size ltac:(lia) _ (Z.to_nat (Z.quot len 2))); lia.
  - apply bind_fuel.
    + repeat (apply bind_fuel;
              [first [apply char_at_fuel | apply xtoi_fuel | apply poke_fuel]
              | intros ? _]).
      discriminate.
    + intros [[i j] o] Hst.
      apply bind_Done in Hst as (c & _ & Hst).
      apply bind_Done in Hst as (x & _ & Hst).
      apply bind_Done in Hst as (o' & _ & Hst).
      injection Hst as <- <- <-.
      destruct (Z.le_gt_cases len 1) as [Hneg|Hpos]; [now apply Hexit|].
      pose proof (Z.rem_nonneg len 2 ltac:(lia) ltac:(lia)).
      apply (strtox_loop_fuel s len size ltac:(lia) _ (Z.to_nat (Z.quot len 2))); lia.
Qed.

(** ** The length of the decoded bytes *)

Lemma decode_pairs_length : forall (p : nat) (cs : list ascii),
  (length cs = 2 * p \/ length cs = 2 * p + 1)%nat -> length (decode_pairs cs) = p.
Proof.
  induction p as [|p IH]; intros [|c1 [|c2 cs]] H; simpl in *; try lia.
  f_equal. apply IH. lia.
Qed.

Lemma hex_bytes_length cs :
  Z.of_nat (length (hex_bytes cs)) = (Z.of_nat (length cs) + 1) / 2.
Proof.
  pose proof (Nat.div2_odd (length cs)) as Hpar. unfold hex_bytes.
  set (p := Nat.div2 (length cs)) in *.
  destruct (Nat.odd (length cs)); cbn [Nat.b2n] in Hpar.
  - destruct cs as [|c rest]; simpl in Hpar; [lia|]. cbn [length].
    rewrite (decode_pairs_length p rest) by lia.
    apply Z.div_unique with 0; lia.
  - rewrite (decode_pairs_length p cs) by lia.
    apply Z.div_unique with 1; lia.
Qed.

(** [strtox] on a string of digits it accepts, into a destination with
    room for every byte: the bytes are all written; the return value is the
    byte count, except that a loop that fills the destination up to [size]
    reports [-1]. *)
Lemma strtox_spec s size (out : list Z) :
  let cs := list_ascii_of_string s in
  let T := length (hex_bytes cs) in
  Forall (fun c => accepted c = true) cs ->
  Z.of_nat (length cs) <= 32767 ->
  (T <= length out)%nat ->
  Z.of_nat T <= size ->
  strtox s (Some out) size =
    Done (Some (hex_bytes cs ++ drop T out),
          if (2 <=? Z.of_nat (length cs)) && (size =? Z.of_nat T)
          then -1 else Z.of_nat T).
Proof.
  intros cs T Hacc Hlen Hout Hsize.
  pose proof (Nat.div2_odd (length cs)) as Hpar.
  generalize dependent (Nat.div2 (length cs)). intros p Hpar.
  unfold strtox.
  rewrite (strlen_accepted s Hacc), <- length_list_ascii. fold cs.
  rewrite int16_small by lia.
  rewrite Z.rem_mod_nonneg by lia.
  subst T. unfold hex_bytes in *.
  destruct (Nat.odd (length cs)) eqn:Hodd; cbn [Nat.b2n] in Hpar.
  - destruct cs as [|c rest] eqn:Hcs; [simpl in Hpar; lia|].
    cbn [length] in *.
    assert (Hp : length (decode_pairs rest) = p)
      by (apply decode_pairs_length; lia).
    rewrite Hp in *.
    replace (Z.of_nat (S (length rest)) mod 2) with 1
      by (apply Z.mod_unique with (Z.of_nat p); lia).
    change (negb (1 =? 0)) with true. cbv iota.
    destruct (digit_at s ltac:(fold cs; rewrite Hcs; exact Hacc) 0%nat
                ltac:(fold cs; rewrite Hcs; simpl; lia))
      as (c' & Hc' & Hx & Hv).
    fold cs in Hc'. rewrite Hcs in Hc'. injection Hc' as <-.
    change (Z.of_nat 0) with 0 in Hx.
    apply bind_Done in Hx as (k & Hk & Hx).
    rewrite Hk. cbn [bind]. rewrite Hx. cbn [bind].
    change 0 with (Z.of_nat 0) at 1. rewrite (poke_Some out 0) by lia. cbn [bind].
    rewrite uint8_small by lia.
    change (int16 (0 + 1)) with (Z.of_nat 1). change 1 with (Z.of_nat 1) at 1.
    replace (Z.to_nat (Z.of_nat (S (length rest)))) with (S (length rest)) by lia.
    pose proof (strtox_loop_spec s size) as Hloop. fold cs in Hloop.
    rewrite Hcs in Hloop. cbn [length] in Hloop.
    rewrite (Hloop ltac:(lia) Hacc p (S (length rest)) 1%nat 1%nat);
      [| lia | lia | lia | rewrite length_insert; lia | lia].
    destruct out as [|o out]; [simpl in Hout; lia|].
    cbn. f_equal. f_equal.
    destruct p as [|p]; cbn [Nat.eqb].
    + destruct (2 <=? _) eqn:E; [apply Z.leb_le in E; lia | reflexivity].
    + replace (2 <=? Z.of_nat (S (length rest))) with true
        by Zb.
      cbn [andb]. replace (Z.of_nat (1 + S p)) with (Z.of_nat (S (S p))) by lia.
      reflexivity.
  - assert (Hp : length (decode_pairs cs) = p)
      by (apply decode_pairs_length; lia).
    rewrite Hp in *.
    replace (Z.of_nat (length cs) mod 2) with 0
      by (apply Z.mod_unique with (Z.of_nat p); lia).
    change (negb (0 =? 0)) with false. cbv iota.
    change 0 with (Z.of_nat 0).
    rewrite Nat2Z.id. cbn [bind].
    rewrite (strtox_loop_spec s size ltac:(fold cs; lia) Hacc p (length cs) 0%nat 0%nat);
      [| fold cs; lia | lia | lia | lia | lia].
    fold cs. cbn [take drop app Nat.add]. f_equal. f_equal.
    destruct p as [|p]; cbn [Nat.eqb].
    + destruct (2 <=? _) eqn:E; [apply Z.leb_le in E; lia | reflexivity].
    + replace (2 <=? Z.of_nat (length cs)) with true
        by Zb.
      reflexivity.
Qed.

(** ** What [BitStreamFillAscii] leaves in the buffer *)

Lemma realloc_length h old n blk :
  0 <= n -> realloc h old n = Some blk -> Z.of_nat (length blk) = n.
Proof.
  unfold realloc. intros Hn H. destruct (realloc_ok h); [|discriminate].
  injection H as <-. rewrite length_map, length_seq. lia.
Qed.

Lemma FillAscii_spec h bs old s :
  let cs := list_ascii_of_string s in
  array bs = Some old ->
  realloc_ok h = true ->
  Forall (fun c => accepted c = true) cs ->
  1 <= Z.of_nat (length cs) <= 16382 ->
  BitStreamFillAscii h (Some bs) s =
    Done (Some (mkBitStream (Some (hex_bytes cs)) (8 * Z.of_nat (length (hex_bytes cs)))),
          8 * Z.of_nat (length (hex_bytes cs))).
Proof.
  intros cs Harr Hre Hacc Hlen.
  pose proof (hex_bytes_length cs) as HT.
  pose proof (strtox_spec s (Z.of_nat (length (hex_bytes cs)))) as Hstrtox.
  cbv zeta in Hstrtox. fold cs in Hstrtox.
  unfold BitStreamFillAscii.
  rewrite (strlen_accepted s Hacc), <- length_list_ascii. fold cs.
  remember (length (hex_bytes cs)) as T eqn:HTdef.
  remember (length cs) as L eqn:HLdef.
  clearbody cs.
  assert (HTr : 1 <= Z.of_nat T <= 8191).
  { pose proof (Z.div_mod (Z.of_nat L + 1) 2 ltac:(lia)).
    pose proof (Z.mod_pos_bound (Z.of_nat L + 1) 2 ltac:(lia)). lia. }
  rewrite Z.shiftr_div_pow2 by lia. change (2 ^ 1) with 2. rewrite <- HT.
  rewrite (uint16_small (Z.of_nat T)) by lia.
  unfold BitStreamRealloc, BITS_PER_BYTE.
  rewrite (uint16_small (Z.of_nat T * 8)) by lia.
  rewrite Harr.
  replace (negb (Z.of_nat T * 8 =? 0)) with true
    by Zb.
  replace ((Z.of_nat T * 8 + 8 - 1) / 8) with (Z.of_nat T)
    by (apply Z.div_unique with 7; lia).
  destruct (realloc h old (Z.of_nat T)) as [blk|] eqn:Hblk;
    [|unfold realloc in Hblk; rewrite Hre in Hblk; discriminate].
  pose proof (realloc_length h old (Z.of_nat T) blk ltac:(lia) Hblk) as Hblen.
  cbn [array nbits].
  rewrite (Hstrtox blk Hacc) by lia.
  cbn [bind fst]. rewrite drop_ge, app_nil_r by lia.
  now rewrite (Z.mul_comm (Z.of_nat T) 8).
Qed.

(** ** C7: a digit string of odd length *)

(** C7 (amended). For every [m <= 8190] and every string of [2m + 1]
    characters all in [0-9a-f], decoding into a buffer that owns storage
    (the reallocation succeeding) yields a buffer of [8 * (m + 1)] bits
    holding [m + 1] bytes: the first byte is the value of the first
    character (below 16, so its high nibble is zero), and the remaining
    characters are decoded in pairs, most significant nibble first. *)
Theorem decode_odd_length h bs old (c : ascii) (r : string) (m : nat) :
  array bs = Some old ->
  realloc_ok h = true ->
  String.length r = (2 * m)%nat ->
  Z.of_nat m <= 8190 ->
  accepted c = true ->
  Forall (fun c => accepted c = true) (list_ascii_of_string r) ->
  exists bytes,
    BitStreamFillAscii h (Some bs) (String c r) =
      Done (Some (mkBitStream (Some bytes) (8 * Z.of_nat (S m))), 8 * Z.of_nat (S m)) /\
    length bytes = S m /\
    bytes = hex_value c :: decode_pairs (list_ascii_of_string r) /\
    0 <= hex_value c < 16.
Proof.
  intros Harr Hre Hr Hm Hc Hacc.
  pose proof (length_list_ascii r) as Hlr.
  assert (Hbytes : hex_bytes (list_ascii_of_string (String c r)) =
                   hex_value c :: decode_pairs (list_ascii_of_string r)).
  { unfold hex_bytes. cbn [list_ascii_of_string length].
    replace (Nat.odd (S (length (list_ascii_of_string r)))) with true; [reflexivity|].
    symmetry. rewrite Hlr, Hr, Nat.odd_succ. apply Nat.even_spec. now exists m. }
  assert (Hlen : length (hex_value c :: decode_pairs (list_ascii_of_string r)) = S m).
  { cbn [length]. f_equal. apply decode_pairs_length. lia. }
  exists (hex_value c :: decode_pairs (list_ascii_of_string r)).
  split; [|split; [exact Hlen|split; [reflexivity|apply (accepted_facts c Hc)]]].
  rewrite (FillAscii_spec h bs old (String c r) Harr Hre).
  - rewrite Hbytes, Hlen. reflexivity.
  - cbn [list_ascii_of_string]. now constructor.
  - cbn [list_ascii_of_string length]. lia.
Qed.

Lemma decode_odd_length_witness :
  exists bytes,
    BitStreamFillAscii (mkLibc true true true (fun _ => 0xEE))
                       (Some (mkBitStream (Some [0]) 8)) "abc" =
      Done (Some (mkBitStream (Some bytes) (8 * Z.of_nat 2)), 8 * Z.of_nat 2) /\
    length bytes = 2%nat /\
    bytes = hex_value "a" :: decode_pairs (list_ascii_of_string "bc") /\
    0 <= hex_value "a" < 16.
Proof.
  apply (decode_odd_length (mkLibc true true true (fun _ => 0xEE))
                           (mkBitStream (Some [0]) 8) [0] "a"%char "bc" 1%nat).
  - reflexivity.
  - reflexivity.
  - reflexivity.
  - lia.
  - reflexivity.
  - repeat constructor.
Defined.

(** Strings of the digit [0], for inputs too long to write out. *)

Lemma length_zeros n : String.length (zeros n) = n.
Proof. induction n as [|n IH]; simpl; congruence. Qed.

Lemma strlen_zeros n : strlen (zeros n) = n.
Proof. induction n as [|n IH]; simpl; congruence. Qed.

Lemma FillAscii_bit_count_wraps h bs old (n : nat) :
  array bs = Some old ->
  Z.of_nat n = 16383 ->
  BitStreamFillAscii h (Some bs) (zeros n) = Crash NullDeref.
Proof.
  intros Harr Hn. unfold BitStreamFillAscii.
  rewrite strlen_zeros, Hn.
  change (uint16 (Z.shiftr (16383 + 1) 1)) with 8192.
  change (uint16 (8192 * BITS_PER_BYTE)) with 0.
  unfold BitStreamRealloc. rewrite Harr. cbn [Z.eqb negb array nbits].
  unfold strtox. rewrite strlen_zeros, Hn.
  change (int16 16383) with 16383.
  change (negb (Z.rem 16383 2 =? 0)) with true. cbv iota.
  destruct n as [|n]; [discriminate Hn|]. reflexivity.
Qed.

(** C7, as stated, fails at two inputs.  The upper-case digit ["A"] is a
    one-character hex string ([m = 0]) and the call stops at [assert(0)]
    instead of producing the byte [0x0A].  A string of 16383 digits
    ([m = 8191]) needs 65536 bits, which [uint16_t] holds as 0: the buffer
    is resized to no storage and the first byte is written through NULL. *)
Lemma decode_odd_length_fails :
  is_hex_digit "A" = true /\
  BitStreamFillAscii libc_ok (Some one_byte_buffer) "A" = Crash AssertFailed /\
  Forall (fun c => is_hex_digit c = true)
         (list_ascii_of_string (zeros (Z.to_nat 16383))) /\
  Z.of_nat (String.length (zeros (Z.to_nat 16383))) = 2 * 8191 + 1 /\
  BitStreamFillAscii libc_ok (Some one_byte_buffer) (zeros (Z.to_nat 16383))
    = Crash NullDeref.
Proof.
  split; [reflexivity|]. split; [reflexivity|]. split; [|split].
  - generalize (Z.to_nat 16383). intros n.
    induction n as [|n IH]; simpl; constructor; [reflexivity | exact IH].
  - rewrite length_zeros. lia.
  - apply (FillAscii_bit_count_wraps libc_ok one_byte_buffer [0]); [reflexivity | lia].
Qed.

(** ** C2: the digits [xtoi] converts *)

Lemma xtoi_Done_iff (c : ascii) :
  (exists v, xtoi (chr c) = Done v) <-> accepted c = true.
Proof.
  rewrite xtoi_cases. destruct (accepted c); split; intros H; eauto.
  - destruct H; discriminate.
  - discriminate.
Qed.

Lemma xtoi_upper_hex (c : ascii) :
  is_upper_hex c = true -> xtoi (chr c) = Crash AssertFailed.
Proof.
  intros H. rewrite xtoi_cases.
  now destruct (upper_hex_not_accepted c H) as [_ ->].
Qed.

(** C2. The claim requires the upper-case digits [A]-[F] to be converted.
    The third test of [xtoi] reads [c < -'F'] and never holds, so each of
    them reaches [assert(0)], and so does a decode of a string that
    contains one. *)
Theorem xtoi_rejects_uppercase :
  Forall (fun c => is_hex_digit c = true /\ xtoi (chr c) = Crash AssertFailed)
         ["A"; "B"; "C"; "D"; "E"; "F"]%char /\
  strtox "1C" (Some [0]) 1 = Crash AssertFailed /\
  BitStreamFillAscii libc_ok (Some one_byte_buffer) "1C" = Crash AssertFailed.
Proof.
  split; [|split; reflexivity].
  repeat constructor.
Qed.

(** ** C8: the value [strtox] reports *)

(** Every string of at least two accepted digits, decoded into a
    destination of exactly the size it needs, has its bytes written and
    [-1] reported. *)
Lemma strtox_exact_size s (out : list Z) :
  let cs := list_ascii_of_string s in
  Forall (fun c => accepted c = true) cs ->
  2 <= Z.of_nat (length cs) <= 32767 ->
  length out = length (hex_bytes cs) ->
  strtox s (Some out) (Z.of_nat (length out)) = Done (Some (hex_bytes cs), -1).
Proof.
  intros cs Hacc Hlen Hout.
  pose proof (strtox_spec s (Z.of_nat (length out)) out Hacc) as H.
  cbv zeta in H. fold cs in H. rewrite <- Hout in H.
  rewrite H by lia.
  rewrite drop_all, app_nil_r, Z.eqb_refl.
  replace (2 <=? Z.of_nat (length cs)) with true by Zb.
  reflexivity.
Qed.

(** C8. The claim requires a decode into a destination of exactly
    [ceil(digits/2)] bytes to report the byte count and a decode into a
    smaller one to fail.  ["1c"] into one byte with [size = 1] converts the
    byte and reports [-1]; ["a"] with [size = 0] converts the byte and
    reports 1. *)
Theorem strtox_size_check_off_by_one :
  strtox "1c" (Some [0]) 1 = Done (Some [0x1c], -1) /\
  strtox "a" (Some [0]) 0 = Done (Some [0x0a], 1).
Proof. split; reflexivity. Qed.

(** ** C3: the structural invariant under create and rebind *)

Lemma nbytes_nonneg n : 0 <= n -> 0 <= nbytes n.
Proof. intros H. pose proof (nbytes_spec n H). lia. Qed.

Lemma memset_none a c : memset a c 0 = a.
Proof. reflexivity. Qed.

(** [BitStreamCreate] establishes the invariant whenever it returns. *)
Lemma Create_invariant h n bs :
  0 <= n -> BitStreamCreate h n = Done bs -> invariant bs /\ nbits bs = n.
Proof.
  intros Hn. unfold BitStreamCreate, calloc.
  destruct (malloc_ok h); [|discriminate].
  destruct (Z.eqb_spec n 0) as [->|Hne]; cbn [negb].
  - intros H. injection H as <-. split; reflexivity.
  - destruct (calloc_ok h); [|discriminate].
    intros H. injection H as <-. rewrite memset_none.
    split; [|reflexivity]. unfold invariant. cbn [array nbits].
    split; [lia|]. rewrite length_replicate.
    pose proof (nbytes_nonneg n Hn). unfold nbytes in *. lia.
Qed.

(** [BitStreamRealloc] on the paths that keep it: a supplied block of the
    right size, a release to 0 bits, and a resize of existing storage. *)
Lemma Realloc_invariant h bs buffer n bs' :
  match buffer with
  | Some buf => 0 < n /\ Z.of_nat (length buf) = nbytes n
  | None => n = 0 \/ (0 < n /\ is_Some (array bs) /\ realloc_ok h = true)
  end ->
  BitStreamRealloc h (Some bs) buffer n = Some bs' ->
  invariant bs'.
Proof.
  unfold BitStreamRealloc, invariant. intros Hcase H. injection H as <-.
  cbn [array nbits].
  destruct buffer as [buf|].
  - destruct (array bs); exact Hcase.
  - destruct Hcase as [->|(Hn & [old Hold] & Hre)].
    + destruct (array bs); reflexivity.
    + rewrite Hold.
      replace (negb (n =? 0)) with true
        by Zb.
      destruct (realloc h old _) as [blk|] eqn:Hblk.
      * split; [exact Hn|].
        apply (realloc_length h old); [|exact Hblk].
        apply nbytes_nonneg. lia.
      * unfold realloc in Hblk. rewrite Hre in Hblk. discriminate.
Qed.

(** C3. The claim requires a rebind with no supplied storage and a positive
    bit length to leave the invariant in force.  On the buffer that
    [BitStreamCreate] makes for 0 bits, [BitStreamRealloc] with no storage
    and 8 bits keeps the NULL storage and records 8 bits. *)
Theorem Realloc_empty_buffer_breaks_invariant (h : libc) :
  BitStreamCreate libc_ok 0 = Done (mkBitStream None 0) /\
  invariant (mkBitStream None 0) /\
  BitStreamRealloc h (Some (mkBitStream None 0)) None 8
    = Some (mkBitStream None 8) /\
  ~ invariant (mkBitStream None 8).
Proof.
  split; [reflexivity|]. split; [reflexivity|]. split; [reflexivity|].
  unfold invariant. cbn [array nbits]. discriminate.
Qed.

(** ** C9: the exclusive-or of two buffers *)

(** C9. With equal bit lengths the combination is a buffer of that bit
    length whose bytes are the byte-wise XOR of the operands' bytes; with
    different bit lengths it is [LengthMismatch], which carries no
    buffer. *)
Theorem xor_contract (a b : BitStream) :
  (nbits a = nbits b ->
   exists c,
     BitStreamExclusiveOr a b = Combined c /\
     nbits c = nbits a /\
     forall x y, array a = Some x -> array b = Some y ->
       array c = Some (zip_with Z.lxor x y) /\
       forall k u v, x !! k = Some u -> y !! k = Some v ->
                     zip_with Z.lxor x y !! k = Some (Z.lxor u v)) /\
  (nbits a <> nbits b -> BitStreamExclusiveOr a b = LengthMismatch).
Proof.
  unfold BitStreamExclusiveOr. split.
  - intros Heq. rewrite Heq, Z.eqb_refl. eexists. split; [reflexivity|].
    split; [reflexivity|].
    intros x y -> ->. split; [reflexivity|].
    intros k u v Hu Hv. rewrite lookup_zip_with, Hu, Hv. reflexivity.
  - intros Hne. now destruct (Z.eqb_spec (nbits a) (nbits b)).
Qed.

Lemma xor_contract_witness :
  (16 = 16 ->
   exists c,
     BitStreamExclusiveOr (mkBitStream (Some [0x1c; 0x01]) 16)
                          (mkBitStream (Some [0x68; 0x69]) 16) = Combined c /\
     nbits c = 16 /\
     forall x y, Some [0x1c; 0x01] = Some x -> Some [0x68; 0x69] = Some y ->
       array c = Some (zip_with Z.lxor x y) /\
       forall k u v, x !! k = Some u -> y !! k = Some v ->
                     zip_with Z.lxor x y !! k = Some (Z.lxor u v)) /\
  (16 <> 16 ->
   BitStreamExclusiveOr (mkBitStream (Some [0x1c; 0x01]) 16)
                        (mkBitStream (Some [0x68; 0x69]) 16) = LengthMismatch).
Proof.
  apply (xor_contract (mkBitStream (Some [0x1c; 0x01]) 16)
                      (mkBitStream (Some [0x68; 0x69]) 16)).
Defined.

(** ** The test vectors of the specification *)

Example decode_vector :
  BitStreamFillAscii libc_ok (Some one_byte_buffer)
                     "1c0111001f010100061a024b53535009181c" =
    Done (Some (mkBitStream
                  (Some [0x1c; 0x01; 0x11; 0x00; 0x1f; 0x01; 0x01; 0x00; 0x06;
                         0x1a; 0x02; 0x4b; 0x53; 0x53; 0x50; 0x09; 0x18; 0x1c])
                  144), 144).
Proof. vm_compute. reflexivity. Qed.

Example xor_vector :
  exists x y,
    BitStreamFillAscii libc_ok (Some one_byte_buffer)
                       "1c0111001f010100061a024b53535009181c" = Done (Some x, 144) /\
    BitStreamFillAscii libc_ok (Some one_byte_buffer)
                       "686974207468652062756c6c277320657965" = Done (Some y, 144) /\
    BitStreamExclusiveOr x y =
      Combined (mkBitStream
                  (Some [0x74; 0x68; 0x65; 0x20; 0x6b; 0x69; 0x64; 0x20; 0x64;
                         0x6f; 0x6e; 0x27; 0x74; 0x20; 0x70; 0x6c; 0x61; 0x79])
                  144).
Proof. eexists _, _. split; [vm_compute; reflexivity|]. split; vm_compute; reflexivity. Qed.

(** * Further properties of the code *)

(** ** Bits of bytes *)

Lemma testbit_255 t : Z.testbit 255 t = (0 <=? t) && (t <? 8).
Proof. change 255 with (Z.ones 8). apply Z.testbit_ones. lia. Qed.

Lemma testbit_uint8 x t :
  0 <= t -> Z.testbit (uint8 x) t = Z.testbit x t && (t <? 8).
Proof.
  intros Ht. rewrite uint8_land, Z.land_spec, testbit_255.
  destruct (Z.leb_spec 0 t); [reflexivity | lia].
Qed.

Lemma testbit_merge old m x t :
  0 <= t < 8 ->
  Z.testbit (merge old m x) t =
    if Z.testbit m t then Z.testbit x t else Z.testbit old t.
Proof.
  intros Ht. unfold merge.
  rewrite testbit_uint8, Z.lor_spec, !Z.land_spec, Z.lnot_spec by lia.
  destruct (Z.ltb_spec t 8); [|lia].
  destruct (Z.testbit m t), (Z.testbit x t), (Z.testbit old t); reflexivity.
Qed.

Lemma testbit_field_mask j cur t :
  0 <= j -> 0 <= cur -> j + cur <= 8 -> 0 <= t ->
  Z.testbit (field_mask j cur) t = (8 - (j + cur) <=? t) && (t <? 8 - j).
Proof.
  intros Hj Hc Hjc Ht. unfold field_mask, BITS_PER_BYTE.
  rewrite testbit_uint8, Z.land_spec, Z.shiftr_spec, Z.shiftl_spec, !testbit_255 by lia.
  repeat match goal with
         | |- context [?x <=? ?y] => destruct (Z.leb_spec x y)
         | |- context [?x <? ?y] => destruct (Z.ltb_spec x y)
         end; simpl; try reflexivity; lia.
Qed.

Lemma testbit_tail_mask c t :
  0 <= c <= 8 -> 0 <= t ->
  Z.testbit (tail_mask c) t = (8 - c <=? t) && (t <? 8).
Proof.
  intros Hc Ht. unfold tail_mask, BITS_PER_BYTE.
  rewrite testbit_uint8, Z.shiftl_spec, !testbit_255 by lia.
  repeat match goal with
         | |- context [?x <=? ?y] => destruct (Z.leb_spec x y)
         | |- context [?x <? ?y] => destruct (Z.ltb_spec x y)
         end; simpl; try reflexivity; lia.
Qed.

Lemma testbit_neg x t : t < 0 -> Z.testbit x t = false.
Proof. intros H. now apply Z.testbit_neg_r. Qed.

(** Bit [t] of the left-aligned value is bit [t - (8 - n)] of the value. *)
Lemma testbit_left_align v n t :
  1 <= n <= 8 -> t < 8 ->
  Z.testbit (left_align v n) t = Z.testbit v (t - (8 - n)).
Proof.
  intros Hn Ht. unfold left_align, BITS_PER_BYTE.
  destruct (Z.ltb_spec n 8) as [Hlt|Hge].
  - destruct (Z.lt_ge_cases t 0) as [Hneg|Hpos].
    + now rewrite !testbit_neg by lia.
    + rewrite testbit_uint8, Z.shiftl_spec by lia.
      destruct (Z.ltb_spec t 8); [|lia]. now rewrite andb_true_r.
  - replace n with 8 by lia. now rewrite Z.sub_diag, Z.sub_0_r.
Qed.

Ltac Zcmp :=
  repeat match goal with
         | |- context [?x <=? ?y] => destruct (Z.leb_spec x y)
         | |- context [?x <? ?y] => destruct (Z.ltb_spec x y)
         end; cbn [andb orb negb].

(** ** X2: the bits [BitStreamPutByte] writes *)

Lemma bit_at_insert (a : list Z) (idx : nat) x k :
  0 <= k -> (idx < length a)%nat ->
  bit_at (<[idx := x]> a) k =
    if (Z.of_nat idx =? k / 8) then Z.testbit x (7 - k mod 8) else bit_at a k.
Proof.
  intros Hk Hidx. unfold bit_at.
  pose proof (Z.div_pos k 8 Hk ltac:(lia)).
  destruct (Z.eqb_spec (Z.of_nat idx) (k / 8)) as [He|Hne].
  - rewrite <- He, Nat2Z.id. now rewrite list_lookup_insert_eq.
  - now rewrite list_lookup_insert_ne by lia.
Qed.

Lemma invariant_storage bs a k :
  invariant bs -> array bs = Some a -> k <= nbits bs -> k <= 8 * Z.of_nat (length a).
Proof.
  unfold invariant. intros Hinv Harr Hk. rewrite Harr in Hinv.
  destruct Hinv as [Hpos Hlen].
  pose proof (nbytes_spec (nbits bs) ltac:(lia)). lia.
Qed.

Lemma invariant_has_storage bs k :
  invariant bs -> 0 < k <= nbits bs -> exists a, array bs = Some a.
Proof.
  unfold invariant. intros Hinv Hk. destruct (array bs) as [a|]; [eauto | lia].
Qed.

(** The bits of the storage after a write. *)
Lemma PutByte_bits bs a value offset n :
  array bs = Some a ->
  0 <= offset ->
  1 <= n <= 8 ->
  offset + n <= 8 * Z.of_nat (length a) ->
  exists a',
    BitStreamPutByte bs value offset n = Done (mkBitStream (Some a') (nbits bs), n) /\
    length a' = length a /\
    forall k, 0 <= k ->
      bit_at a' k =
        if (offset <=? k) && (k <? offset + n)
        then Z.testbit value (offset + n - 1 - k)
        else bit_at a k.
Proof.
  intros Harr Hoff Hn Hfit.
  destruct (offset_split offset Hoff) as (Hi & Hj & Hsplit).
  set (i := DECL_BYTE_OFFSET offset) in *.
  set (j := DECL_BITS_OFFSET offset) in *.
  destruct (lookup_lt_is_Some_2 a (Z.to_nat i) ltac:(lia)) as [old Hold].
  destruct (Z.le_gt_cases (j + n) 8) as [Hjn|Hjn].
  - eexists. split; [|split].
    + apply (PutByte_within bs a value offset n Harr Hoff ltac:(lia) old Hjn Hold).
    + apply length_insert.
    + intros k Hk. fold i j.
      pose proof (Z.div_mod k 8 ltac:(lia)) as Hkq.
      pose proof (Z.mod_pos_bound k 8 ltac:(lia)) as Hkr.
      rewrite bit_at_insert by (try apply lookup_lt_Some in Hold; lia).
      rewrite Z2Nat.id by lia.
      destruct (Z.eqb_spec i (k / 8)) as [Heq|Hne].
      * rewrite testbit_merge, testbit_field_mask by lia.
        unfold bit_at. rewrite <- Heq, Hold.
        Zcmp; try lia; try reflexivity.
        rewrite Z.shiftr_spec, testbit_left_align by lia. f_equal. lia.
      * Zcmp; try reflexivity. lia.
  - destruct (lookup_lt_is_Some_2 a (Z.to_nat (i + 1)) ltac:(lia)) as [old1 Hold1].
    pose proof (lookup_lt_Some _ _ _ Hold) as Hlt.
    pose proof (lookup_lt_Some _ _ _ Hold1) as Hlt1.
    eexists. split; [|split].
    + apply (PutByte_spanning bs a value offset n Harr Hoff ltac:(lia) old old1 Hjn Hold Hold1).
    + now rewrite !length_insert.
    + intros k Hk. fold i j.
      pose proof (Z.div_mod k 8 ltac:(lia)) as Hkq.
      pose proof (Z.mod_pos_bound k 8 ltac:(lia)) as Hkr.
      rewrite !bit_at_insert by (rewrite ?length_insert; lia).
      rewrite !Z2Nat.id by lia.
      destruct (Z.eqb_spec (i + 1) (k / 8)) as [Heq1|Hne1];
        [|destruct (Z.eqb_spec i (k / 8)) as [Heq|Hne]].
      * rewrite testbit_merge, testbit_tail_mask by lia.
        unfold bit_at. rewrite <- Heq1, Hold1.
        Zcmp; try lia; try reflexivity.
        rewrite testbit_uint8, Z.shiftl_spec, testbit_left_align by lia.
        Zcmp; try lia. rewrite andb_true_r. f_equal. lia.
      * rewrite testbit_merge, testbit_field_mask by lia.
        unfold bit_at. rewrite <- Heq, Hold.
        Zcmp; try lia; try reflexivity.
        rewrite Z.shiftr_spec, testbit_left_align by lia. f_equal. lia.
      * Zcmp; try reflexivity. lia.
Qed.

(** X2. On a buffer that satisfies the invariant, a write into a field of
    [1 <= n <= 8] bits inside the bit length succeeds, reports [n] bits and
    keeps the bit length and the storage size; afterwards the bits of the
    field are the low [n] bits of the value, most significant first, and
    every other bit of the storage is as before. *)
Theorem put_bits_spec bs value offset n :
  invariant bs ->
  0 <= offset ->
  1 <= n <= 8 ->
  offset + n <= nbits bs ->
  exists a a',
    array bs = Some a /\
    BitStreamPutByte bs value offset n = Done (mkBitStream (Some a') (nbits bs), n) /\
    length a' = length a /\
    forall k, 0 <= k ->
      bit_at a' k =
        if (offset <=? k) && (k <? offset + n)
        then Z.testbit value (offset + n - 1 - k)
        else bit_at a k.
Proof.
  intros Hinv Hoff Hn Hin.
  destruct (invariant_has_storage bs (offset + n) Hinv ltac:(lia)) as [a Harr].
  pose proof (invariant_storage bs a _ Hinv Harr Hin) as Hfit.
  destruct (PutByte_bits bs a value offset n Harr Hoff Hn Hfit) as (a' & Hput & Hrest).
  exists a, a'. auto.
Qed.

Lemma put_bits_spec_witness :
  exists a a',
    array (mkBitStream (Some [0xAB; 0xCD; 0xEF]) 24) = Some a /\
    BitStreamPutByte (mkBitStream (Some [0xAB; 0xCD; 0xEF]) 24) 0x12 12 7
      = Done (mkBitStream (Some a') 24, 7) /\
    length a' = length a /\
    forall k, 0 <= k ->
      bit_at a' k =
        if (12 <=? k) && (k <? 12 + 7)
        then Z.testbit 0x12 (12 + 7 - 1 - k)
        else bit_at a k.
Proof.
  apply (put_bits_spec (mkBitStream (Some [0xAB; 0xCD; 0xEF]) 24) 0x12 12 7).
  - split; reflexivity.
  - lia.
  - lia.
  - simpl. lia.
Defined.

(** ** X1: the bits [BitStreamGetByte] reads *)

Lemma bit_at_byte (a : list Z) q r b :
  0 <= q -> 0 <= r < 8 -> a !! Z.to_nat q = Some b ->
  bit_at a (8 * q + r) = Z.testbit b (7 - r).
Proof.
  intros Hq Hr Hb. unfold bit_at.
  replace ((8 * q + r) / 8) with q by (apply Z.div_unique with r; lia).
  replace ((8 * q + r) mod 8) with r by (apply Z.mod_unique with q; lia).
  now rewrite Hb.
Qed.

Lemma testbit_right_align x n t :
  0 <= t < n -> n <= 8 ->
  Z.testbit (right_align x n) t = Z.testbit x (t + (8 - n)).
Proof.
  intros Ht Hn. unfold right_align, BITS_PER_BYTE.
  destruct (Z.ltb_spec n 8) as [Hlt|Hge].
  - rewrite testbit_uint8, Z.shiftr_spec by lia.
    destruct (Z.ltb_spec t 8); [|lia]. now rewrite andb_true_r.
  - replace n with 8 by lia. now rewrite Z.sub_diag, Z.add_0_r.
Qed.

Lemma right_align_range y n :
  1 <= n <= 8 -> 0 <= right_align (uint8 y) n < 2 ^ n.
Proof.
  intros Hn.
  pose (P := fun v (_ : Z) n =>
    implb (1 <=? n) ((0 <=? right_align v n) && (right_align v n <? 2 ^ n))).
  assert (H : P (uint8 y) 0 n = true)
    by (apply all_cases_sound; [vm_compute; reflexivity | apply uint8_range | lia..]).
  unfold P in H. replace (1 <=? n) with true in H by Zb.
  apply andb_true_iff in H as [H1 H2].
  apply Z.leb_le in H1. apply Z.ltb_lt in H2. lia.
Qed.

(** The bits of the value read. *)
Lemma GetByte_bits bs a byte0 offset n :
  array bs = Some a ->
  0 <= offset ->
  1 <= n <= 8 ->
  offset + n <= nbits bs ->
  offset + n <= 8 * Z.of_nat (length a) ->
  exists v,
    BitStreamGetByte bs byte0 offset n = Done (v, n) /\
    0 <= v < 2 ^ n /\
    forall t, 0 <= t < n -> Z.testbit v t = bit_at a (offset + n - 1 - t).
Proof.
  intros Harr Hoff Hn Hin Hfit.
  destruct (offset_split offset Hoff) as (Hi & Hj & Hsplit).
  set (i := DECL_BYTE_OFFSET offset) in *.
  set (j := DECL_BITS_OFFSET offset) in *.
  destruct (lookup_lt_is_Some_2 a (Z.to_nat i) ltac:(lia)) as [old Hold].
  destruct (Z.le_gt_cases (j + n) 8) as [Hjn|Hjn].
  - eexists. split; [|split].
    + apply (GetByte_within bs a byte0 offset n Harr Hoff ltac:(lia) Hin old Hjn Hold).
    + apply right_align_range. lia.
    + intros t Ht. fold i j.
      replace (offset + n - 1 - t) with (8 * i + (j + n - 1 - t)) by lia.
      rewrite (bit_at_byte a i _ old) by (assumption || lia).
      rewrite testbit_right_align by lia.
      rewrite testbit_uint8, Z.shiftl_spec, Z.land_spec, testbit_field_mask by lia.
      Zcmp; try lia. rewrite !andb_true_r. f_equal. lia.
  - destruct (lookup_lt_is_Some_2 a (Z.to_nat (i + 1)) ltac:(lia)) as [old1 Hold1].
    eexists. split; [|split].
    + apply (GetByte_spanning bs a byte0 offset n Harr Hoff ltac:(lia) Hin old old1
               Hjn Hold Hold1).
    + apply right_align_range. lia.
    + intros t Ht. fold i j. unfold BITS_PER_BYTE.
      rewrite testbit_right_align by lia.
      rewrite testbit_uint8, Z.lor_spec by lia.
      rewrite testbit_uint8, Z.shiftl_spec, Z.land_spec by lia.
      rewrite Z.shiftr_spec, Z.land_spec by lia.
      rewrite testbit_tail_mask by lia.
      destruct (Z.le_gt_cases j (t + (8 - n))) as [Hfirst|Hsecond].
      * rewrite testbit_field_mask by lia.
        replace (offset + n - 1 - t) with (8 * i + (j + n - 1 - t)) by lia.
        rewrite (bit_at_byte a i _ old) by (assumption || lia).
        Zcmp; try lia. rewrite !andb_true_r, andb_false_r, orb_false_r.
        f_equal. lia.
      * rewrite (testbit_neg _ (t + (8 - n) - j)) by lia.
        replace (offset + n - 1 - t) with (8 * (i + 1) + (j + n - 1 - t - 8)) by lia.
        rewrite (bit_at_byte a (i + 1) _ old1) by (assumption || lia).
        Zcmp; try lia. rewrite !andb_true_r. cbn [andb orb].
        f_equal. lia.
Qed.

(** X1. On a buffer that satisfies the invariant, a read of a field of
    [1 <= n <= 8] bits inside the bit length succeeds and reports [n]
    bits; the value is below [2^n] and its bit [t] is the storage bit at
    offset [offset + n - 1 - t]: the field is read most significant bit
    first and right-aligned. *)
Theorem get_bits_spec bs byte0 offset n :
  invariant bs ->
  0 <= offset ->
  1 <= n <= 8 ->
  offset + n <= nbits bs ->
  exists a v,
    array bs = Some a /\
    BitStreamGetByte bs byte0 offset n = Done (v, n) /\
    0 <= v < 2 ^ n /\
    forall t, 0 <= t < n -> Z.testbit v t = bit_at a (offset + n - 1 - t).
Proof.
  intros Hinv Hoff Hn Hin.
  destruct (invariant_has_storage bs (offset + n) Hinv ltac:(lia)) as [a Harr].
  pose proof (invariant_storage bs a _ Hinv Harr Hin) as Hfit.
  destruct (GetByte_bits bs a byte0 offset n Harr Hoff Hn Hin Hfit) as (v & Hget & Hrest).
  exists a, v. auto.
Qed.

Lemma get_bits_spec_witness :
  exists a v,
    array (mkBitStream (Some [0xAB; 0xCD; 0xEF]) 24) = Some a /\
    BitStreamGetByte (mkBitStream (Some [0xAB; 0xCD; 0xEF]) 24) 0 12 7 = Done (v, 7) /\
    0 <= v < 2 ^ 7 /\
    forall t, 0 <= t < 7 -> Z.testbit v t = bit_at a (12 + 7 - 1 - t).
Proof.
  apply (get_bits_spec (mkBitStream (Some [0xAB; 0xCD; 0xEF]) 24) 0 12 7).
  - split; reflexivity.
  - lia.
  - lia.
  - simpl. lia.
Defined.

(** ** X3: a write leaves every disjoint field as it was *)

Lemma bits_ext x y n :
  0 <= n -> 0 <= x < 2 ^ n -> 0 <= y < 2 ^ n ->
  (forall t, 0 <= t < n -> Z.testbit x t = Z.testbit y t) -> x = y.
Proof.
  intros Hn Hx Hy H. apply Z.bits_inj'. intros t Ht.
  destruct (Z.lt_ge_cases t n) as [Hlt|Hge]; [apply H; lia|].
  rewrite <- (Z.mod_small x (2 ^ n)), <- (Z.mod_small y (2 ^ n)) by assumption.
  now rewrite !Z.mod_pow2_bits_high by lia.
Qed.

(** X3. On a buffer that satisfies the invariant, for two fields of 1 to 8
    bits inside the bit length that do not overlap, writing the first field
    succeeds and a read of the second field afterwards returns what it
    returned before the write. *)
Theorem put_keeps_disjoint_field bs value o1 n1 o2 n2 byte0 :
  invariant bs ->
  0 <= o1 -> 1 <= n1 <= 8 -> o1 + n1 <= nbits bs ->
  0 <= o2 -> 1 <= n2 <= 8 -> o2 + n2 <= nbits bs ->
  o1 + n1 <= o2 \/ o2 + n2 <= o1 ->
  exists bs',
    BitStreamPutByte bs value o1 n1 = Done (bs', n1) /\
    BitStreamGetByte bs' byte0 o2 n2 = BitStreamGetByte bs byte0 o2 n2.
Proof.
  intros Hinv Ho1 Hn1 Hin1 Ho2 Hn2 Hin2 Hdisj.
  destruct (invariant_has_storage bs (o1 + n1) Hinv ltac:(lia)) as [a Harr].
  pose proof (invariant_storage bs a _ Hinv Harr Hin1) as Hfit1.
  pose proof (invariant_storage bs a _ Hinv Harr Hin2) as Hfit2.
  destruct (PutByte_bits bs a value o1 n1 Harr Ho1 Hn1 Hfit1)
    as (a' & Hput & Hlen & Hbits).
  destruct (GetByte_bits bs a byte0 o2 n2 Harr Ho2 Hn2 Hin2 Hfit2)
    as (v & Hget & Hv & Hvbits).
  destruct (GetByte_bits (mkBitStream (Some a') (nbits bs)) a' byte0 o2 n2
              eq_refl Ho2 Hn2 Hin2 ltac:(rewrite Hlen; exact Hfit2))
    as (v' & Hget' & Hv' & Hvbits').
  eexists. split; [exact Hput|].
  rewrite Hget, Hget'. do 2 f_equal.
  apply (bits_ext v' v n2); [lia | assumption..|].
  intros t Ht. rewrite Hvbits, Hvbits', Hbits by lia.
  Zcmp; try reflexivity; lia.
Qed.

Lemma put_keeps_disjoint_field_witness :
  exists bs',
    BitStreamPutByte (mkBitStream (Some [0xAB; 0xCD; 0xEF]) 24) 0x15 6 5
      = Done (bs', 5) /\
    BitStreamGetByte bs' 0 11 7
      = BitStreamGetByte (mkBitStream (Some [0xAB; 0xCD; 0xEF]) 24) 0 11 7.
Proof.
  apply (put_keeps_disjoint_field
           (mkBitStream (Some [0xAB; 0xCD; 0xEF]) 24) 0x15 6 5 11 7 0).
  - split; reflexivity.
  - lia.
  - lia.
  - simpl. lia.
  - lia.
  - lia.
  - simpl. lia.
  - lia.
Defined.

(** ** X4: writing back what was read, and writing twice *)

Lemma storage_ext (a a' : list Z) :
  length a' = length a ->
  byte_storage a -> byte_storage a' ->
  (forall k, 0 <= k -> bit_at a' k = bit_at a k) ->
  a' = a.
Proof.
  intros Hlen Ha Ha' Hbits. apply list_eq. intros idx.
  destruct (a !! idx) as [b|] eqn:Hb.
  - destruct (lookup_lt_is_Some_2 a' idx) as [b' Hb'];
      [rewrite Hlen; now apply lookup_lt_Some in Hb|].
    rewrite Hb'. f_equal.
    pose proof (Forall_lookup_1 _ _ _ _ Ha Hb) as Hr. cbv beta in Hr.
    pose proof (Forall_lookup_1 _ _ _ _ Ha' Hb') as Hr'. cbv beta in Hr'.
    apply (bits_ext b' b 8); [lia | exact Hr' | exact Hr |].
    intros t Ht.
    pose proof (Hbits (8 * Z.of_nat idx + (7 - t)) ltac:(lia)) as H.
    rewrite (bit_at_byte a' (Z.of_nat idx) (7 - t) b') in H
      by (rewrite ?Nat2Z.id; assumption || lia).
    rewrite (bit_at_byte a (Z.of_nat idx) (7 - t) b) in H
      by (rewrite ?Nat2Z.id; assumption || lia).
    now replace (7 - (7 - t)) with t in H by lia.
  - apply lookup_ge_None in Hb. apply lookup_ge_None. lia.
Qed.

Lemma store_inv bs i v bs' :
  store bs i v = Done bs' ->
  exists a, array bs = Some a /\
            bs' = mkBitStream (Some (<[Z.to_nat i := uint8 v]> a)) (nbits bs).
Proof.
  unfold store, poke. destruct (array bs) as [a|]; [|discriminate].
  destruct (_ && _); [|discriminate].
  cbn [bind]. intros H. injection H as <-. eauto.
Qed.

(** Whatever its arguments, a call of [BitStreamPutByte] that returns has
    kept the bit length and the size of the storage, and has stored
    bytes. *)
Lemma PutByte_inv bs value offset n bs' r :
  BitStreamPutByte bs value offset n = Done (bs', r) ->
  nbits bs' = nbits bs /\
  exists a a', array bs = Some a /\ array bs' = Some a' /\
               length a' = length a /\
               (byte_storage a -> byte_storage a').
Proof.
  unfold BitStreamPutByte. intros H.
  apply bind_Done in H as (old & _ & H).
  apply bind_Done in H as (bs1 & Hst1 & H).
  apply store_inv in Hst1 as (a & Harr & ->).
  destruct (_ <? n).
  - apply bind_Done in H as (old1 & _ & H).
    apply bind_Done in H as (bs2 & Hst2 & H).
    apply store_inv in Hst2 as (a1 & Harr1 & ->).
    injection H as <- <-. cbn [array nbits] in *. injection Harr1 as <-.
    split; [reflexivity|]. exists a. eexists. split; [exact Harr|].
    split; [reflexivity|]. split; [now rewrite !length_insert|].
    intros Ha. repeat apply Forall_insert; try assumption; apply uint8_range.
  - injection H as <- <-. cbn [array nbits].
    split; [reflexivity|]. exists a. eexists. split; [exact Harr|].
    split; [reflexivity|]. split; [now rewrite length_insert|].
    intros Ha. apply Forall_insert; [assumption | apply uint8_range].
Qed.

(** X4. On a buffer that satisfies the invariant and stores bytes, writing
    back into a field of 1 to 8 bits the value just read from it succeeds
    and leaves the buffer exactly as it was. *)
Theorem put_what_was_read bs a byte0 offset n v :
  invariant bs ->
  array bs = Some a ->
  byte_storage a ->
  0 <= offset -> 1 <= n <= 8 -> offset + n <= nbits bs ->
  BitStreamGetByte bs byte0 offset n = Done (v, n) ->
  BitStreamPutByte bs v offset n = Done (bs, n).
Proof.
  intros Hinv Harr Hbytes Hoff Hn Hin Hget.
  pose proof (invariant_storage bs a _ Hinv Harr Hin) as Hfit.
  destruct (GetByte_bits bs a byte0 offset n Harr Hoff Hn Hin Hfit)
    as (v' & Hget' & _ & Hvbits).
  rewrite Hget in Hget'. injection Hget' as <-.
  destruct (PutByte_bits bs a v offset n Harr Hoff Hn Hfit)
    as (a' & Hput & Hlen & Hbits).
  rewrite Hput. do 2 f_equal.
  destruct (PutByte_inv _ _ _ _ _ _ Hput) as (_ & a0 & a0' & Ha0 & Ha0' & _ & Hkeep).
  rewrite Harr in Ha0. injection Ha0 as <-. cbn [array] in Ha0'. injection Ha0' as <-.
  replace a' with a.
  - destruct bs as [arr nb]. cbn [array nbits] in *. now rewrite Harr.
  - symmetry. apply storage_ext; [exact Hlen | exact Hbytes | now apply Hkeep |].
    intros k Hk. rewrite Hbits by exact Hk.
    Zcmp; try reflexivity.
    rewrite Hvbits by lia. f_equal. lia.
Qed.

Lemma put_what_was_read_witness :
  BitStreamPutByte (mkBitStream (Some [0xAB; 0xCD; 0xEF]) 24) 0x6F 12 7
    = Done (mkBitStream (Some [0xAB; 0xCD; 0xEF]) 24, 7).
Proof.
  apply (put_what_was_read (mkBitStream (Some [0xAB; 0xCD; 0xEF]) 24)
                           [0xAB; 0xCD; 0xEF] 0 12 7 0x6F).
  - split; reflexivity.
  - reflexivity.
  - repeat constructor; lia.
  - lia.
  - lia.
  - simpl. lia.
  - reflexivity.
Defined.

(** X5. On a buffer that satisfies the invariant and stores bytes, two
    writes to the same field of 1 to 8 bits leave the buffer as the second
    write alone does. *)
Theorem put_twice bs a v1 v2 offset n :
  invariant bs ->
  array bs = Some a ->
  byte_storage a ->
  0 <= offset -> 1 <= n <= 8 -> offset + n <= nbits bs ->
  exists bs1,
    BitStreamPutByte bs v1 offset n = Done (bs1, n) /\
    BitStreamPutByte bs1 v2 offset n = BitStreamPutByte bs v2 offset n.
Proof.
  intros Hinv Harr Hbytes Hoff Hn Hin.
  pose proof (invariant_storage bs a _ Hinv Harr Hin) as Hfit.
  destruct (PutByte_bits bs a v1 offset n Harr Hoff Hn Hfit)
    as (a1 & Hput1 & Hlen1 & Hbits1).
  destruct (PutByte_bits bs a v2 offset n Harr Hoff Hn Hfit)
    as (a2 & Hput2 & Hlen2 & Hbits2).
  destruct (PutByte_bits (mkBitStream (Some a1) (nbits bs)) a1 v2 offset n
              eq_refl Hoff Hn ltac:(rewrite Hlen1; exact Hfit))
    as (a12 & Hput12 & Hlen12 & Hbits12).
  cbn [nbits] in Hput12.
  eexists. split; [exact Hput1|].
  rewrite Hput12, Hput2. repeat f_equal.
  destruct (PutByte_inv _ _ _ _ _ _ Hput1) as (_ & b & b' & Hb & Hb' & _ & Hk1).
  rewrite Harr in Hb. injection Hb as <-. cbn [array] in Hb'. injection Hb' as <-.
  destruct (PutByte_inv _ _ _ _ _ _ Hput2) as (_ & c & c' & Hc & Hc' & _ & Hk2).
  rewrite Harr in Hc. injection Hc as <-. cbn [array] in Hc'. injection Hc' as <-.
  destruct (PutByte_inv _ _ _ _ _ _ Hput12) as (_ & d & d' & Hd & Hd' & _ & Hk12).
  cbn [array] in Hd, Hd'. injection Hd as <-. injection Hd' as <-.
  apply storage_ext; [lia | now apply Hk2 | now apply Hk12, Hk1 |].
  intros k Hk. rewrite Hbits12, Hbits1, Hbits2 by exact Hk.
  Zcmp; reflexivity.
Qed.

Lemma put_twice_witness :
  exists bs1,
    BitStreamPutByte (mkBitStream (Some [0xAB; 0xCD; 0xEF]) 24) 0x15 6 5
      = Done (bs1, 5) /\
    BitStreamPutByte bs1 0x0A 6 5
      = BitStreamPutByte (mkBitStream (Some [0xAB; 0xCD; 0xEF]) 24) 0x0A 6 5.
Proof.
  apply (put_twice (mkBitStream (Some [0xAB; 0xCD; 0xEF]) 24)
                   [0xAB; 0xCD; 0xEF] 0x15 0x0A 6 5).
  - split; reflexivity.
  - reflexivity.
  - repeat constructor; lia.
  - lia.
  - lia.
  - simpl. lia.
Defined.

(** ** X6: [BitStreamPutByte] keeps the shape of the buffer *)

(** X6. Whatever the value, offset and width, a call of [BitStreamPutByte]
    that returns has changed neither the bit length nor the size of the
    storage: a buffer that satisfied the invariant still does. *)
Theorem put_keeps_invariant bs value offset n bs' r :
  BitStreamPutByte bs value offset n = Done (bs', r) ->
  nbits bs' = nbits bs /\
  (forall a, array bs = Some a ->
             exists a', array bs' = Some a' /\ length a' = length a) /\
  (invariant bs -> invariant bs').
Proof.
  intros H.
  destruct (PutByte_inv _ _ _ _ _ _ H) as (Hnb & a & a' & Ha & Ha' & Hlen & _).
  split; [exact Hnb|]. split.
  - intros a0 Ha0. rewrite Ha in Ha0. injection Ha0 as <-. eauto.
  - unfold invariant. now rewrite Ha, Ha', Hnb, Hlen.
Qed.

Lemma put_keeps_invariant_witness :
  nbits (mkBitStream (Some [171; 194; 79]) 24) = 24 /\
  (forall a, Some [0xAB; 0xCD; 0xEF] = Some a ->
             exists a', Some [171; 194; 79] = Some a' /\ length a' = length a) /\
  (invariant (mkBitStream (Some [0xAB; 0xCD; 0xEF]) 24) ->
   invariant (mkBitStream (Some [171; 194; 79]) 24)).
Proof.
  apply (put_keeps_invariant (mkBitStream (Some [0xAB; 0xCD; 0xEF]) 24) 0x12 12 7
                             (mkBitStream (Some [171; 194; 79]) 24) 7).
  reflexivity.
Defined.

(** ** X7: when [BitStreamPutByte] succeeds *)

Lemma load_outside bs a i :
  array bs = Some a -> Z.of_nat (length a) <= i -> load bs i = Crash OutOfBounds.
Proof.
  intros Ha Hi. unfold load, peek. rewrite Ha.
  destruct (Z.ltb_spec i 0); [reflexivity|].
  now rewrite lookup_ge_None_2 by lia.
Qed.

(** X7. [BitStreamPutByte] does not look at the bit length.  On a buffer
    with storage, a write of 1 to 8 bits succeeds exactly when the field
    lies inside the storage; a field that reaches past the last byte of the
    storage is an access outside the block. *)
Theorem put_succeeds_iff_in_storage bs a value offset n :
  array bs = Some a ->
  0 <= offset ->
  1 <= n <= 8 ->
  (offset + n <= 8 * Z.of_nat (length a) ->
   exists bs', BitStreamPutByte bs value offset n = Done (bs', n)) /\
  (8 * Z.of_nat (length a) < offset + n ->
   BitStreamPutByte bs value offset n = Crash OutOfBounds).
Proof.
  intros Harr Hoff Hn. split.
  - intros Hfit.
    destruct (PutByte_bits bs a value offset n Harr Hoff Hn Hfit) as (a' & Hput & _).
    eauto.
  - intros Hout.
    destruct (offset_split offset Hoff) as (Hi & Hj & Hsplit).
    unfold BitStreamPutByte.
    set (i := DECL_BYTE_OFFSET offset) in *.
    set (j := DECL_BITS_OFFSET offset) in *.
    cbv zeta.
    destruct (Z.le_gt_cases (Z.of_nat (length a)) i) as [Hfirst|Hsecond].
    + now rewrite (load_outside bs a i Harr Hfirst).
    + destruct (lookup_lt_is_Some_2 a (Z.to_nat i) ltac:(lia)) as [old Hold].
      rewrite (MIN_l (BITS_PER_BYTE - j) n) by (unfold BITS_PER_BYTE; lia).
      change (BITS_PER_BYTE - j) with (8 - j).
      rewrite (uint16_small (8 - j)) by lia.
      rewrite (load_Some bs a i old Harr Hi Hold). cbn [bind].
      rewrite (store_Some bs a i old _ Harr Hi Hold). cbn [bind].
      destruct (Z.ltb_spec (8 - j) n) as [_|]; [|lia].
      rewrite (uint16_small (n - (8 - j))) by lia.
      erewrite load_outside; [reflexivity | reflexivity |].
      rewrite length_insert. lia.
Qed.

Lemma put_succeeds_iff_in_storage_witness :
  (4 + 8 <= 8 * Z.of_nat (length [0xAB]) ->
   exists bs', BitStreamPutByte (mkBitStream (Some [0xAB]) 4) 0x12 4 8
                 = Done (bs', 8)) /\
  (8 * Z.of_nat (length [0xAB]) < 4 + 8 ->
   BitStreamPutByte (mkBitStream (Some [0xAB]) 4) 0x12 4 8 = Crash OutOfBounds).
Proof.
  apply (put_succeeds_iff_in_storage (mkBitStream (Some [0xAB]) 4) [0xAB] 0x12 4 8).
  - reflexivity.
  - lia.
  - lia.
Defined.

(** ** X8: what [BitStreamCreate] returns *)

(** X8. [BitStreamCreate] returns exactly when the allocations it makes
    succeed (the object, and the storage when the bit count is not 0); any
    failing allocation ends in an access through NULL at [bs->nbits].  The
    buffer returned has the requested bit length, satisfies the invariant
    and its storage is [nbytes n] zero bytes. *)
Theorem create_spec h n :
  0 <= n ->
  (malloc_ok h = true /\ (n = 0 \/ calloc_ok h = true) ->
   exists bs,
     BitStreamCreate h n = Done bs /\
     nbits bs = n /\
     invariant bs /\
     array bs = if n =? 0 then None else Some (replicate (Z.to_nat (nbytes n)) 0)) /\
  (malloc_ok h = false \/ (n <> 0 /\ calloc_ok h = false) ->
   BitStreamCreate h n = Crash NullDeref).
Proof.
  intros Hn. unfold BitStreamCreate, calloc. split.
  - intros [Hm Hc]. rewrite Hm.
    destruct (Z.eqb_spec n 0) as [->|Hne]; cbn [negb].
    + eexists. split; [reflexivity|]. repeat split.
    + destruct Hc as [Hc|Hc]; [contradiction|]. rewrite Hc.
      eexists. split; [reflexivity|]. split; [reflexivity|]. split; [|reflexivity].
      unfold invariant. cbn [array nbits]. rewrite memset_none.
      split; [lia|]. rewrite length_replicate.
      pose proof (nbytes_nonneg n Hn). unfold nbytes in *. lia.
  - intros [Hm|[Hne Hc]].
    + now rewrite Hm.
    + destruct (malloc_ok h); [|reflexivity].
      destruct (Z.eqb_spec n 0) as [|_]; [contradiction|]. cbn [negb].
      now rewrite Hc.
Qed.

Lemma create_spec_witness :
  (malloc_ok libc_ok = true /\ (12 = 0 \/ calloc_ok libc_ok = true) ->
   exists bs,
     BitStreamCreate libc_ok 12 = Done bs /\
     nbits bs = 12 /\
     invariant bs /\
     array bs = if 12 =? 0 then None else Some (replicate (Z.to_nat (nbytes 12)) 0)) /\
  (malloc_ok libc_ok = false \/ (12 <> 0 /\ calloc_ok libc_ok = false) ->
   BitStreamCreate libc_ok 12 = Crash NullDeref).
Proof. apply (create_spec libc_ok 12). lia. Defined.

(** ** X9: a new buffer reads as zero *)

Lemma bit_at_replicate_0 m k : bit_at (replicate m 0) k = false.
Proof.
  unfold bit_at. destruct (replicate m 0 !! _) as [b|] eqn:Hb; [|reflexivity].
  apply lookup_replicate in Hb as [-> _]. apply Z.bits_0.
Qed.

Lemma Create_zero h n bs a :
  BitStreamCreate h n = Done bs -> array bs = Some a -> exists m, a = replicate m 0.
Proof.
  unfold BitStreamCreate, calloc. destruct (malloc_ok h); [|discriminate].
  destruct (negb (n =? 0)).
  - destruct (calloc_ok h); [|discriminate].
    intros H Ha. injection H as <-. rewrite memset_none in Ha. injection Ha as <-.
    eauto.
  - intros H Ha. injection H as <-. discriminate Ha.
Qed.

(** X9. Every field of 1 to 8 bits inside a buffer that [BitStreamCreate]
    has just returned reads as 0. *)
Theorem get_after_create h n bs byte0 offset w :
  BitStreamCreate h n = Done bs ->
  0 <= offset ->
  1 <= w <= 8 ->
  offset + w <= n ->
  BitStreamGetByte bs byte0 offset w = Done (0, w).
Proof.
  intros Hcreate Hoff Hw Hin.
  destruct (Create_invariant h n bs ltac:(lia) Hcreate) as [Hinv Hnb].
  destruct (invariant_has_storage bs (offset + w) Hinv ltac:(lia)) as [a Harr].
  pose proof (invariant_storage bs a (offset + w) Hinv Harr ltac:(lia)) as Hfit.
  destruct (Create_zero h n bs a Hcreate Harr) as [m ->].
  destruct (GetByte_bits bs _ byte0 offset w Harr Hoff Hw ltac:(lia) Hfit)
    as (v & Hget & Hv & Hbits).
  rewrite Hget. do 2 f_equal.
  apply (bits_ext v 0 w); [lia | exact Hv | |].
  - split; [lia|]. apply Z.pow_pos_nonneg; lia.
  - intros t Ht. now rewrite Hbits, bit_at_replicate_0, Z.bits_0.
Qed.

Lemma get_after_create_witness :
  BitStreamGetByte (mkBitStream (Some (replicate (Z.to_nat (nbytes 12)) 0)) 12)
                   0x77 5 7 = Done (0, 7).
Proof.
  apply (get_after_create libc_ok 12
           (mkBitStream (Some (replicate (Z.to_nat (nbytes 12)) 0)) 12) 0x77 5 7).
  - reflexivity.
  - lia.
  - lia.
  - lia.
Defined.

(** ** X10: resizing a buffer *)

Lemma realloc_lookup h old n blk (idx : nat) b :
  realloc h old n = Some blk ->
  old !! idx = Some b -> Z.of_nat idx < n ->
  blk !! idx = Some b.
Proof.
  unfold realloc. intros H Hb Hidx. destruct (realloc_ok h); [|discriminate].
  injection H as <-.
  change (map ?f ?l) with (f <$> l).
  rewrite list_lookup_fmap, lookup_seq_lt by lia. cbn. now rewrite Hb.
Qed.

Lemma bit_at_agree (a a' : list Z) k :
  0 <= k -> (forall b, a !! Z.to_nat (k / 8) = Some b -> a' !! Z.to_nat (k / 8) = Some b) ->
  k < 8 * Z.of_nat (length a) ->
  bit_at a' k = bit_at a k.
Proof.
  intros Hk H Hlt. unfold bit_at.
  pose proof (Z.div_mod k 8 ltac:(lia)). pose proof (Z.mod_pos_bound k 8 ltac:(lia)).
  pose proof (Z.div_pos k 8 Hk ltac:(lia)).
  destruct (lookup_lt_is_Some_2 a (Z.to_nat (k / 8)) ltac:(lia)) as [b Hb].
  now rewrite Hb, (H b Hb).
Qed.

(** X10. On a buffer that satisfies the invariant and owns storage,
    [BitStreamRealloc] with no supplied block and a positive bit count,
    the reallocation succeeding, gives a buffer of the new bit length that
    satisfies the invariant, and every field of 1 to 8 bits that lies
    inside both the old and the new bit length reads as before. *)
Theorem realloc_keeps_common_fields h bs n byte0 offset w :
  invariant bs ->
  realloc_ok h = true ->
  0 < nbits bs ->
  0 < n ->
  0 <= offset -> 1 <= w <= 8 ->
  offset + w <= nbits bs -> offset + w <= n ->
  exists bs',
    BitStreamRealloc h (Some bs) None n = Some bs' /\
    nbits bs' = n /\
    invariant bs' /\
    BitStreamGetByte bs' byte0 offset w = BitStreamGetByte bs byte0 offset w.
Proof.
  intros Hinv Hre Hpos Hn Hoff Hw Hin Hin'.
  destruct (invariant_has_storage bs (nbits bs) Hinv ltac:(lia)) as [a Harr].
  pose proof (invariant_storage bs a _ Hinv Harr Hin) as Hfit.
  destruct (BitStreamRealloc h (Some bs) None n) as [bs'|] eqn:Hrealloc;
    [|discriminate Hrealloc].
  assert (Hinv' : invariant bs').
  { apply (Realloc_invariant h bs None n bs'); [|exact Hrealloc].
    right. split; [exact Hn|]. split; [now exists a | exact Hre]. }
  pose proof (Realloc_nbits _ _ _ _ _ Hrealloc) as Hnb'.
  exists bs'. split; [reflexivity|]. split; [exact Hnb'|]. split; [exact Hinv'|].
  destruct (invariant_has_storage bs' n Hinv' ltac:(lia)) as [a' Harr'].
  pose proof (invariant_storage bs' a' (offset + w) Hinv' Harr' ltac:(lia)) as Hfit'.
  assert (Hblk : realloc h a (nbytes n) = Some a').
  { unfold BitStreamRealloc in Hrealloc. rewrite Harr in Hrealloc.
    injection Hrealloc as <-. cbn [array] in Harr'.
    destruct (Z.eqb_spec n 0); [lia|]. exact Harr'. }
  pose proof (realloc_length h a _ a' (nbytes_nonneg n ltac:(lia)) Hblk) as Hlen'.
  destruct (GetByte_bits bs a byte0 offset w Harr Hoff Hw Hin Hfit)
    as (v & Hget & Hv & Hbits).
  destruct (GetByte_bits bs' a' byte0 offset w Harr' Hoff Hw ltac:(lia) Hfit')
    as (v' & Hget' & Hv' & Hbits').
  rewrite Hget, Hget'. do 2 f_equal.
  apply (bits_ext v' v w); [lia | assumption..|].
  intros t Ht. rewrite Hbits, Hbits' by lia.
  apply bit_at_agree; [lia | | lia].
  intros b Hb. apply (realloc_lookup h a (nbytes n) a' _ b Hblk Hb).
  pose proof (Z.div_mod (offset + w - 1 - t) 8 ltac:(lia)).
  pose proof (Z.mod_pos_bound (offset + w - 1 - t) 8 ltac:(lia)).
  pose proof (Z.div_pos (offset + w - 1 - t) 8 ltac:(lia) ltac:(lia)).
  rewrite Z2Nat.id by lia. lia.
Qed.

Lemma realloc_keeps_common_fields_witness :
  exists bs',
    BitStreamRealloc libc_ok (Some (mkBitStream (Some [0xAB; 0xCD; 0xEF]) 24)) None 12
      = Some bs' /\
    nbits bs' = 12 /\
    invariant bs' /\
    BitStreamGetByte bs' 0 5 7
      = BitStreamGetByte (mkBitStream (Some [0xAB; 0xCD; 0xEF]) 24) 0 5 7.
Proof.
  apply (realloc_keeps_common_fields libc_ok
           (mkBitStream (Some [0xAB; 0xCD; 0xEF]) 24) 12 0 5 7).
  - split; reflexivity.
  - reflexivity.
  - simpl. lia.
  - lia.
  - lia.
  - lia.
  - simpl. lia.
  - lia.
Defined.

(** ** X11: [BitStreamFill] with too few source bytes *)

Lemma fill_loop_short N inp : forall (a : list Z) (m : nat),
  0 <= N <= 65528 ->
  Z.of_nat (length a) = nbytes N ->
  Z.of_nat m + Z.of_nat (length inp) < nbytes N ->
  fill_loop inp (mkBitStream (Some a) N) (8 * Z.of_nat m) = Crash OutOfBounds.
Proof.
  induction inp as [|b inp IH]; intros a m HN Hlen Hshort;
    pose proof (nbytes_spec N ltac:(lia)) as Hnb;
    cbn [fill_loop nbits length] in *;
    (destruct (Z.ltb_spec (8 * Z.of_nat m) N); [|lia]); [reflexivity|].
  destruct (lookup_lt_is_Some_2 a m ltac:(lia)) as [old Hold].
  rewrite (PutByte_aligned (mkBitStream (Some a) N) a m b old eq_refl Hold).
  cbn [bind fst snd nbits].
  replace (uint16 (8 * Z.of_nat m + 8)) with (8 * Z.of_nat (S m))
    by (rewrite uint16_small; lia).
  apply IH; [lia | now rewrite length_insert | lia].
Qed.

(** X11. On a buffer of at most 65528 bits that satisfies the invariant,
    [BitStreamFill] given fewer than [nbytes (nbits bs)] source bytes reads
    past the end of the source, whatever its bit-count argument. *)
Theorem fill_short_source bs inp cnt :
  invariant bs ->
  nbits bs <= 65528 ->
  Z.of_nat (length inp) < nbytes (nbits bs) ->
  BitStreamFill bs inp cnt = Crash OutOfBounds.
Proof.
  intros Hinv HN Hshort.
  destruct bs as [[a|] N]; unfold invariant in Hinv; cbn [array nbits] in *.
  - destruct Hinv as [Hpos Hlen]. unfold BitStreamFill.
    change 0 with (8 * Z.of_nat 0).
    apply fill_loop_short; [lia | exact Hlen | lia].
  - subst N. change (nbytes 0) with 0 in Hshort. lia.
Qed.

Lemma fill_short_source_witness :
  BitStreamFill (mkBitStream (Some [0xAB; 0xCD; 0xEF]) 20) [1; 2] 20
    = Crash OutOfBounds.
Proof.
  apply (fill_short_source (mkBitStream (Some [0xAB; 0xCD; 0xEF]) 20) [1; 2] 20).
  - split; reflexivity.
  - simpl. lia.
  - vm_compute. reflexivity.
Defined.

(** ** X12: [BitStreamFill] on the largest buffers *)

(** X12. On a buffer of 65529 to 65535 bits that satisfies the invariant,
    [BitStreamFill] never returns, whatever the source: its 16-bit counter
    wraps to 0 after the last byte, the loop starts over and ends reading
    past the end of the source. *)
Theorem fill_wraps_above_65528 bs inp cnt :
  invariant bs ->
  65528 < nbits bs < 65536 ->
  BitStreamFill bs inp cnt = Crash OutOfBounds.
Proof.
  intros Hinv HN.
  destruct bs as [[a|] N]; unfold invariant in Hinv; cbn [array nbits] in *; [|lia].
  destruct Hinv as [Hpos Hlen]. unfold BitStreamFill.
  change 0 with (8 * Z.of_nat 0).
  apply fill_loop_wraps; [exact HN | | lia].
  pose proof (nbytes_spec N ltac:(lia)). lia.
Qed.

Lemma fill_wraps_above_65528_witness :
  BitStreamFill full_buffer [1; 2; 3] 0 = Crash OutOfBounds.
Proof.
  apply (fill_wraps_above_65528 full_buffer [1; 2; 3] 0).
  - unfold invariant, full_buffer, full_storage. cbn [array nbits].
    rewrite length_replicate. split; [lia | vm_compute; reflexivity].
  - simpl. lia.
Defined.

(** ** X13: what [strtox] writes and reports *)

(** X13. For a string of at most 32767 characters, all in [0-9a-f], and a
    destination block and a [size] that both have room for the
    [ceil(length/2)] bytes the string denotes, [strtox] overwrites the
    first bytes of the block with them (a leading unpaired digit as a byte
    of its own) and leaves the rest of the block as it was.  It reports the
    byte count, except that it reports [-1] when the string has two
    characters or more and [size] is exactly the byte count. *)
Theorem strtox_writes_and_reports s size (out : list Z) :
  Forall (fun c => accepted c = true) (list_ascii_of_string s) ->
  Z.of_nat (String.length s) <= 32767 ->
  (length (hex_bytes (list_ascii_of_string s)) <= length out)%nat ->
  Z.of_nat (length (hex_bytes (list_ascii_of_string s))) <= size ->
  strtox s (Some out) size =
    Done (Some (hex_bytes (list_ascii_of_string s)
                ++ drop (length (hex_bytes (list_ascii_of_string s))) out),
          if (2 <=? Z.of_nat (String.length s))
             && (size =? Z.of_nat (length (hex_bytes (list_ascii_of_string s))))
          then -1
          else Z.of_nat (length (hex_bytes (list_ascii_of_string s)))).
Proof.
  intros Hacc Hlen Hout Hsize. rewrite <- length_list_ascii in *.
  now apply strtox_spec.
Qed.

Lemma strtox_writes_and_reports_witness :
  strtox "abc" (Some [1; 2; 3; 4]) 3 =
    Done (Some (hex_bytes (list_ascii_of_string "abc")
                ++ drop (length (hex_bytes (list_ascii_of_string "abc"))) [1; 2; 3; 4]),
          if (2 <=? Z.of_nat (String.length "abc"))
             && (3 =? Z.of_nat (length (hex_bytes (list_ascii_of_string "abc"))))
          then -1
          else Z.of_nat (length (hex_bytes (list_ascii_of_string "abc")))).
Proof.
  apply (strtox_writes_and_reports "abc" 3 [1; 2; 3; 4]).
  - repeat constructor.
  - simpl. lia.
  - simpl. lia.
  - simpl. lia.
Defined.

(** ** X14: a character [xtoi] does not convert stops the decode *)

Section StrtoxRejects.

Variables (s : string) (size : Z).

Let cs : list ascii := list_ascii_of_string s.
Let len : Z := Z.of_nat (length cs).

Hypothesis Hlen : len <= 32767.

Lemma strtox_loop_rejects : forall (p fuel i j : nat) (out : list Z),
  (i + 2 * p = length cs)%nat ->
  (p <= fuel)%nat ->
  (j <= i)%nat ->
  (j + p <= length out)%nat ->
  Z.of_nat (j + p) <= size ->
  (exists (idx : nat) c, (i <= idx)%nat /\ cs !! idx = Some c /\ accepted c = false) ->
  strtox_loop fuel s len size (Z.of_nat i) (Z.of_nat j) (Some out) = Crash AssertFailed.
Proof.
  induction p as [|p IH]; intros fuel i j out Hi Hfuel Hji Hout Hsize
    (idx & c & Hidx & Hc & Hbad).
  - apply lookup_lt_Some in Hc. lia.
  - destruct fuel as [|fuel]; [lia|]. cbn [strtox_loop].
    assert (Hloop : (Z.of_nat i <? len) = true) by (apply Z.ltb_lt; lia).
    rewrite Hloop.
    destruct (lookup_lt_is_Some_2 cs i ltac:(lia)) as [c1 Hc1].
    destruct (lookup_lt_is_Some_2 cs (S i) ltac:(lia)) as [c2 Hc2].
    rewrite (char_at_lookup s i c1 Hc1). cbn [bind]. rewrite xtoi_cases.
    destruct (accepted c1) eqn:Ha1; [|reflexivity]. cbn [bind].
    replace (Z.of_nat i + 1) with (Z.of_nat (S i)) by lia.
    rewrite (char_at_lookup s (S i) c2 Hc2). cbn [bind]. rewrite xtoi_cases.
    destruct (accepted c2) eqn:Ha2; [|reflexivity]. cbn [bind].
    assert (Hnext : (S (S i) <= idx)%nat).
    { destruct (Nat.eq_dec idx i) as [->|]; [congruence|].
      destruct (Nat.eq_dec idx (S i)) as [->|]; [congruence|]. lia. }
    pose proof (lookup_lt_Some _ _ _ Hc) as Hidxlt.
    rewrite (poke_Some out j) by lia. cbn [bind].
    replace (int16 (Z.of_nat j + 1)) with (Z.of_nat (S j))
      by (rewrite int16_small; lia).
    replace (int16 (Z.of_nat i + 2)) with (Z.of_nat (S (S i)))
      by (rewrite int16_small; lia).
    rewrite Z.geb_leb.
    destruct (Z.leb_spec size (Z.of_nat (S j))) as [Hfull|Hroom]; [lia|].
    apply IH; [lia | lia | lia | rewrite length_insert; lia | lia |].
    exists idx, c. auto.
Qed.

End StrtoxRejects.

Lemma strtox_rejects s size (out : list Z) (idx : nat) c :
  let cs := list_ascii_of_string s in
  strlen s = String.length s ->
  Z.of_nat (length cs) <= 32767 ->
  Z.of_nat (length cs) <= 2 * Z.of_nat (length out) ->
  Z.of_nat (length cs) <= 2 * size ->
  cs !! idx = Some c -> accepted c = false ->
  strtox s (Some out) size = Crash AssertFailed.
Proof.
  intros cs Hnul Hlen Hout Hsize Hc Hbad.
  pose proof (Nat.div2_odd (length cs)) as Hpar.
  generalize dependent (Nat.div2 (length cs)). intros p Hpar.
  pose proof (lookup_lt_Some _ _ _ Hc) as Hidx.
  unfold strtox. rewrite Hnul, <- length_list_ascii. fold cs.
  rewrite int16_small by lia. rewrite Z.rem_mod_nonneg by lia.
  pose proof (strtox_loop_rejects s size) as Hloop. fold cs in Hloop.
  destruct (Nat.odd (length cs)) eqn:Hodd; cbn [Nat.b2n] in Hpar.
  - replace (Z.of_nat (length cs) mod 2) with 1
      by (apply Z.mod_unique with (Z.of_nat p); lia).
    change (negb (1 =? 0)) with true. cbv iota.
    destruct (lookup_lt_is_Some_2 cs 0%nat ltac:(lia)) as [c0 Hc0].
    change 0 with (Z.of_nat 0) at 1.
    rewrite (char_at_lookup s 0 c0 Hc0). cbn [bind]. rewrite xtoi_cases.
    destruct (accepted c0) eqn:Ha0; [|reflexivity]. cbn [bind].
    change 0 with (Z.of_nat 0) at 1. rewrite (poke_Some out 0) by lia. cbn [bind].
    change (int16 (0 + 1)) with (Z.of_nat 1). change 1 with (Z.of_nat 1) at 1.
    rewrite Nat2Z.id.
    apply (Hloop ltac:(lia) p); [lia | lia | lia | rewrite length_insert; lia | lia |].
    exists idx, c. split; [|split; assumption].
    destruct idx; [congruence | lia].
  - replace (Z.of_nat (length cs) mod 2) with 0
      by (apply Z.mod_unique with (Z.of_nat p); lia).
    change (negb (0 =? 0)) with false. cbv iota. cbn [bind].
    change 0 with (Z.of_nat 0). rewrite Nat2Z.id.
    apply (Hloop ltac:(lia) p); [lia | lia | lia | lia | lia |].
    exists idx, c. split; [lia|]. split; assumption.
Qed.

(** [BitStreamFillAscii] on a buffer with storage: a block of
    [ceil(length/2)] bytes is obtained and handed to [strtox]. *)
Lemma FillAscii_strtox h bs old s :
  array bs = Some old ->
  realloc_ok h = true ->
  1 <= Z.of_nat (strlen s) <= 16382 ->
  exists blk (T : nat),
    Z.of_nat T = (Z.of_nat (strlen s) + 1) / 2 /\
    length blk = T /\
    BitStreamFillAscii h (Some bs) s =
      (let* r := strtox s (Some blk) (Z.of_nat T) in
       Done (Some (mkBitStream (fst r) (8 * Z.of_nat T)), 8 * Z.of_nat T)).
Proof.
  intros Harr Hre Hlen.
  pose proof (Z.div_mod (Z.of_nat (strlen s) + 1) 2 ltac:(lia)) as Hdm.
  pose proof (Z.mod_pos_bound (Z.of_nat (strlen s) + 1) 2 ltac:(lia)) as Hmb.
  set (q := (Z.of_nat (strlen s) + 1) / 2) in *.
  assert (HT : Z.of_nat (Z.to_nat q) = q) by lia.
  unfold BitStreamFillAscii.
  rewrite Z.shiftr_div_pow2 by lia. change (2 ^ 1) with 2. fold q.
  rewrite (uint16_small q) by lia.
  unfold BitStreamRealloc, BITS_PER_BYTE.
  rewrite (uint16_small (q * 8)) by lia.
  rewrite Harr.
  replace (negb (q * 8 =? 0)) with true by Zb.
  replace ((q * 8 + 8 - 1) / 8) with q by (apply Z.div_unique with 7; lia).
  destruct (realloc h old q) as [blk|] eqn:Hblk;
    [|unfold realloc in Hblk; rewrite Hre in Hblk; discriminate].
  pose proof (realloc_length h old q blk ltac:(lia) Hblk) as Hblen.
  exists blk, (Z.to_nat q). split; [exact HT|]. split; [lia|].
  cbn [array nbits]. rewrite HT, (Z.mul_comm q 8).
  destruct (strtox s (Some blk) q) as [r|f]; reflexivity.
Qed.

(** X14. Decoding, into a buffer that owns storage (the reallocation
    succeeding), a string of 1 to 16382 characters without an embedded NUL
    stops at [assert(0)] as soon as the string holds one character outside
    [0-9a-f], wherever it stands. *)
Theorem decode_rejects_invalid_digit h bs old s (idx : nat) c :
  array bs = Some old ->
  realloc_ok h = true ->
  strlen s = String.length s ->
  1 <= Z.of_nat (String.length s) <= 16382 ->
  list_ascii_of_string s !! idx = Some c ->
  accepted c = false ->
  BitStreamFillAscii h (Some bs) s = Crash AssertFailed.
Proof.
  intros Harr Hre Hnul Hlen Hc Hbad.
  destruct (FillAscii_strtox h bs old s Harr Hre ltac:(rewrite Hnul; exact Hlen))
    as (blk & T & HT & Hblk & ->).
  rewrite Hnul in HT.
  pose proof (Z.div_mod (Z.of_nat (String.length s) + 1) 2 ltac:(lia)).
  pose proof (Z.mod_pos_bound (Z.of_nat (String.length s) + 1) 2 ltac:(lia)).
  rewrite (strtox_rejects s (Z.of_nat T) blk idx c Hnul);
    rewrite ?length_list_ascii; try assumption; try reflexivity; lia.
Qed.

Lemma decode_rejects_invalid_digit_witness :
  BitStreamFillAscii libc_ok (Some one_byte_buffer) "12g4" = Crash AssertFailed.
Proof.
  apply (decode_rejects_invalid_digit libc_ok one_byte_buffer [0] "12g4" 2 "g"%char).
  - reflexivity.
  - reflexivity.
  - reflexivity.
  - simpl. lia.
  - reflexivity.
  - reflexivity.
Defined.

(** ** X15: the bytes a decode leaves in the buffer *)

(** X15. Decoding, into a buffer that owns storage (the reallocation
    succeeding), a string of 1 to 16382 characters all in [0-9a-f] gives a
    buffer of [8 * ceil(length/2)] bits that satisfies the invariant and
    whose storage is the bytes the string denotes, the digits taken in
    pairs, most significant nibble first, after a leading byte for the
    unpaired digit of an odd-length string; the call returns the bit
    length and the previous content of the buffer plays no role. *)
Theorem decode_accepted_string h bs old s :
  array bs = Some old ->
  realloc_ok h = true ->
  Forall (fun c => accepted c = true) (list_ascii_of_string s) ->
  1 <= Z.of_nat (String.length s) <= 16382 ->
  exists bs',
    BitStreamFillAscii h (Some bs) s = Done (Some bs', nbits bs') /\
    nbits bs' = 8 * ((Z.of_nat (String.length s) + 1) / 2) /\
    array bs' = Some (hex_bytes (list_ascii_of_string s)) /\
    invariant bs'.
Proof.
  intros Harr Hre Hacc Hlen.
  pose proof (hex_bytes_length (list_ascii_of_string s)) as HT.
  rewrite length_list_ascii in HT.
  pose proof (Z.div_mod (Z.of_nat (String.length s) + 1) 2 ltac:(lia)).
  pose proof (Z.mod_pos_bound (Z.of_nat (String.length s) + 1) 2 ltac:(lia)).
  exists (mkBitStream (Some (hex_bytes (list_ascii_of_string s)))
                      (8 * Z.of_nat (length (hex_bytes (list_ascii_of_string s))))).
  split; [|split; [|split]].
  - rewrite (FillAscii_spec h bs old s Harr Hre Hacc)
      by (rewrite length_list_ascii; exact Hlen).
    reflexivity.
  - cbn [nbits]. now rewrite HT.
  - reflexivity.
  - unfold invariant. cbn [array nbits]. split; [lia|].
    unfold nbytes, BITS_PER_BYTE. apply Z.div_unique with 7; lia.
Qed.

Lemma decode_accepted_string_witness :
  exists bs',
    BitStreamFillAscii libc_ok (Some one_byte_buffer) "1c01" = Done (Some bs', nbits bs') /\
    nbits bs' = 8 * ((Z.of_nat (String.length "1c01") + 1) / 2) /\
    array bs' = Some (hex_bytes (list_ascii_of_string "1c01")) /\
    invariant bs'.
Proof.
  apply (decode_accepted_string libc_ok one_byte_buffer [0] "1c01").
  - reflexivity.
  - reflexivity.
  - repeat constructor.
  - simpl. lia.
Defined.

(** ** X16: decoding a string of no characters *)

(** X16. Decoding a string whose first character is the terminator into any
    buffer leaves the buffer with 0 bits and no storage, satisfying the
    invariant, and returns 0. *)
Theorem decode_empty_string h bs s :
  strlen s = 0%nat ->
  BitStreamFillAscii h (Some bs) s = Done (Some (mkBitStream None 0), 0) /\
  invariant (mkBitStream None 0).
Proof.
  intros Hs. split; [|reflexivity].
  unfold BitStreamFillAscii, BitStreamRealloc, strtox. rewrite Hs.
  destruct (array bs) as [old|]; cbn; destruct (Z.to_nat _); reflexivity.
Qed.

Lemma decode_empty_string_witness :
  BitStreamFillAscii libc_ok (Some one_byte_buffer) "" = Done (Some (mkBitStream None 0), 0) /\
  invariant (mkBitStream None 0).
Proof. apply (decode_empty_string libc_ok one_byte_buffer ""). reflexivity. Defined.

(** ** X17: reading a digit back from a decoded buffer *)

Lemma nibble_read b j :
  0 <= b < 256 -> j = 0 \/ j = 4 ->
  right_align (uint8 (Z.shiftl (Z.land b (field_mask j 4)) j)) 4 =
    if j =? 0 then b / 16 else b mod 16.
Proof.
  intros Hb Hj.
  pose (P := fun v j (_ : Z) =>
    implb ((j =? 0) || (j =? 4))
      (right_align (uint8 (Z.shiftl (Z.land v (field_mask j 4)) j)) 4
       =? (if j =? 0 then v / 16 else v mod 16))).
  assert (H : P b j 0 = true)
    by (apply all_cases_sound; [vm_compute; reflexivity | lia..]).
  unfold P in H.
  replace ((j =? 0) || (j =? 4)) with true in H
    by (destruct Hj as [-> | ->]; reflexivity).
  now apply Z.eqb_eq in H.
Qed.

(** The nibble of index [m] of a buffer, read as a field of 4 bits. *)
Lemma get_nibble bs a byte0 (m : nat) b :
  array bs = Some a ->
  a !! Nat.div2 m = Some b ->
  0 <= b < 256 ->
  4 * Z.of_nat m + 4 <= nbits bs ->
  BitStreamGetByte bs byte0 (4 * Z.of_nat m) 4 =
    Done ((if Nat.even m then b / 16 else b mod 16), 4).
Proof.
  intros Harr Hb Hr Hin.
  pose proof (Nat.div2_odd m) as Hm.
  assert (Hi : DECL_BYTE_OFFSET (4 * Z.of_nat m) = Z.of_nat (Nat.div2 m)).
  { unfold DECL_BYTE_OFFSET, BITS_PER_BYTE. symmetry.
    apply Z.div_unique with (4 * Z.of_nat (Nat.b2n (Nat.odd m)));
      destruct (Nat.odd m); cbn [Nat.b2n] in *; lia. }
  assert (Hj : DECL_BITS_OFFSET (4 * Z.of_nat m) = 4 * Z.of_nat (Nat.b2n (Nat.odd m))).
  { unfold DECL_BITS_OFFSET, BITS_PER_BYTE. symmetry.
    apply Z.mod_unique with (Z.of_nat (Nat.div2 m));
      destruct (Nat.odd m); cbn [Nat.b2n] in *; lia. }
  rewrite (GetByte_within bs a byte0 (4 * Z.of_nat m) 4 Harr ltac:(lia) ltac:(lia) Hin b);
    [| rewrite Hj; destruct (Nat.odd m); cbn [Nat.b2n]; lia
     | rewrite Hi, Nat2Z.id; exact Hb].
  rewrite Hj, nibble_read by (assumption || destruct (Nat.odd m); cbn [Nat.b2n]; lia).
  rewrite <- Nat.negb_odd.
  destruct (Nat.odd m); reflexivity.
Qed.

Lemma decode_pairs_nibble : forall (p : nat) (l : list ascii) (k : nat) c,
  length l = (2 * p)%nat ->
  Forall (fun c => accepted c = true) l ->
  l !! k = Some c ->
  exists b, decode_pairs l !! Nat.div2 k = Some b /\
            0 <= b < 256 /\
            (if Nat.even k then b / 16 else b mod 16) = hex_value c.
Proof.
  induction p as [|p IH]; intros [|c1 [|c2 l]] k c Hlen Hacc Hk;
    cbn [length] in Hlen; try lia; try discriminate Hk.
  inversion Hacc as [|? ? Ha1 Hacc1]; subst.
  inversion Hacc1 as [|? ? Ha2 Hacc2]; subst.
  destruct (accepted_facts c1 Ha1) as (_ & Hv1 & _).
  destruct (accepted_facts c2 Ha2) as (_ & Hv2 & _).
  destruct k as [|[|k]]; cbn [decode_pairs Nat.div2 Nat.even].
  - injection Hk as <-. eexists. split; [reflexivity|]. split; [lia|].
    symmetry. apply Z.div_unique with (hex_value c2); lia.
  - injection Hk as <-. eexists. split; [reflexivity|]. split; [lia|].
    symmetry. apply Z.mod_unique with (hex_value c1); lia.
  - apply (IH l k c); [lia | exact Hacc2 | exact Hk].
Qed.

Lemma hex_bytes_nibble (cs : list ascii) (k : nat) c :
  Forall (fun c => accepted c = true) cs ->
  cs !! k = Some c ->
  exists b, hex_bytes cs !! Nat.div2 (k + Nat.b2n (Nat.odd (length cs))) = Some b /\
            0 <= b < 256 /\
            (if Nat.even (k + Nat.b2n (Nat.odd (length cs)))
             then b / 16 else b mod 16) = hex_value c.
Proof.
  intros Hacc Hk.
  pose proof (Nat.div2_odd (length cs)) as Hpar. unfold hex_bytes.
  generalize dependent (Nat.div2 (length cs)). intros p Hpar.
  destruct (Nat.odd (length cs)); cbn [Nat.b2n] in *.
  - destruct cs as [|c0 rest]; [discriminate Hk|].
    inversion Hacc as [|? ? Ha0 Hrest]; subst.
    destruct (accepted_facts c0 Ha0) as (_ & Hv0 & _).
    destruct k as [|k].
    + injection Hk as <-. cbn. eexists. split; [reflexivity|]. split; [lia|].
      apply Z.mod_small. lia.
    + replace (S k + 1)%nat with (S (S k)) by lia. cbn [Nat.div2 Nat.even].
      apply (decode_pairs_nibble p rest k c); [cbn [length] in Hpar; lia | exact Hrest|].
      exact Hk.
  - rewrite Nat.add_0_r.
    apply (decode_pairs_nibble p cs k c); [lia | exact Hacc | exact Hk].
Qed.

(** X17. After decoding a string of 1 to 16382 characters all in [0-9a-f]
    into a buffer that owns storage (the reallocation succeeding), the
    field of 4 bits at bit offset [4 * (k + odd)], where [odd] is 1 for a
    string of odd length and 0 otherwise, reads as the value of the
    character of index [k] of the string. *)
Theorem get_digit_after_decode h bs old s (k : nat) c byte0 :
  array bs = Some old ->
  realloc_ok h = true ->
  Forall (fun c => accepted c = true) (list_ascii_of_string s) ->
  1 <= Z.of_nat (String.length s) <= 16382 ->
  list_ascii_of_string s !! k = Some c ->
  exists bs',
    BitStreamFillAscii h (Some bs) s = Done (Some bs', nbits bs') /\
    BitStreamGetByte bs' byte0
      (4 * Z.of_nat (k + Nat.b2n (Nat.odd (String.length s)))) 4
      = Done (hex_value c, 4).
Proof.
  intros Harr Hre Hacc Hlen Hk.
  set (cs := list_ascii_of_string s) in *.
  pose proof (hex_bytes_length cs) as HT.
  pose proof (length_list_ascii s) as Hls. fold cs in Hls.
  pose proof (lookup_lt_Some _ _ _ Hk) as Hklt.
  destruct (hex_bytes_nibble cs k c Hacc Hk) as (b & Hb & Hr & Hnib).
  rewrite Hls in *.
  exists (mkBitStream (Some (hex_bytes cs)) (8 * Z.of_nat (length (hex_bytes cs)))).
  split.
  - subst cs. rewrite (FillAscii_spec h bs old s Harr Hre Hacc)
      by (rewrite length_list_ascii; exact Hlen).
    reflexivity.
  - rewrite (get_nibble (mkBitStream (Some (hex_bytes cs)) _) (hex_bytes cs) byte0
               _ b eq_refl Hb Hr); [now rewrite Hnib|].
    cbn [nbits]. apply lookup_lt_Some in Hb.
    pose proof (Nat.div2_odd (k + Nat.b2n (Nat.odd (String.length s)))) as Hd.
    destruct (Nat.odd (k + _)); cbn [Nat.b2n] in Hd; lia.
Qed.

Lemma get_digit_after_decode_witness :
  exists bs',
    BitStreamFillAscii libc_ok (Some one_byte_buffer) "abc" = Done (Some bs', nbits bs') /\
    BitStreamGetByte bs' 0 (4 * Z.of_nat (2 + Nat.b2n (Nat.odd (String.length "abc")))) 4
      = Done (hex_value "c", 4).
Proof.
  apply (get_digit_after_decode libc_ok one_byte_buffer [0] "abc" 2 "c"%char 0).
  - reflexivity.
  - reflexivity.
  - repeat constructor.
  - simpl. lia.
  - reflexivity.
Defined.

(** ** X18: decoding into a buffer that has no storage *)

(** X18. [BitStreamFillAscii] does not allocate for a buffer that has no
    storage: decoding a string of 1 to 32767 characters all in [0-9a-f]
    into such a buffer (the one [BitStreamCreate] makes for 0 bits) writes
    the first byte through NULL. *)
Theorem decode_without_storage h bs s :
  array bs = None ->
  Forall (fun c => accepted c = true) (list_ascii_of_string s) ->
  1 <= Z.of_nat (String.length s) <= 32767 ->
  BitStreamFillAscii h (Some bs) s = Crash NullDeref.
Proof.
  intros Harr Hacc Hlen.
  pose proof (length_list_ascii s) as Hls.
  unfold BitStreamFillAscii, BitStreamRealloc. rewrite Harr. cbn [array nbits].
  unfold strtox. rewrite (strlen_accepted s Hacc).
  rewrite int16_small by lia. rewrite Z.rem_mod_nonneg by lia.
  pose proof (Z.div_mod (Z.of_nat (String.length s)) 2 ltac:(lia)) as Hdm.
  pose proof (Z.mod_pos_bound (Z.of_nat (String.length s)) 2 ltac:(lia)) as Hmb.
  destruct (digit_at s Hacc 0%nat ltac:(rewrite Hls; lia)) as (c0 & _ & Hx0 & _).
  apply bind_Done in Hx0 as (k0 & Hk0 & Hx0). change (Z.of_nat 0) with 0 in Hk0.
  destruct (Z.eqb_spec (Z.of_nat (String.length s) mod 2) 0) as [Heven|Hodd];
    cbn [negb bind].
  - destruct (digit_at s Hacc 1%nat ltac:(rewrite Hls; lia)) as (c1 & _ & Hx1 & _).
    apply bind_Done in Hx1 as (k1 & Hk1 & Hx1). change (Z.of_nat 1) with 1 in Hk1.
    destruct (Z.to_nat (Z.of_nat (String.length s))) as [|fuel] eqn:Hfuel; [lia|].
    cbn [strtox_loop].
    destruct (Z.ltb_spec 0 (Z.of_nat (String.length s))); [|lia].
    change (0 + 1) with 1.
    rewrite Hk0. cbn [bind]. rewrite Hx0. cbn [bind].
    rewrite Hk1. cbn [bind]. rewrite Hx1. reflexivity.
  - rewrite Hk0. cbn [bind]. rewrite Hx0. reflexivity.
Qed.

Lemma decode_without_storage_witness :
  BitStreamFillAscii libc_ok (Some (mkBitStream None 0)) "1c" = Crash NullDeref.
Proof.
  apply (decode_without_storage libc_ok (mkBitStream None 0) "1c").
  - reflexivity.
  - repeat constructor.
  - simpl. lia.
Defined.

(** ** X19: [xtoi] on every character value *)

(** X19. For every value of a [char], [xtoi] returns the digit value for
    ['0']..['9'] (48..57) and for ['a']..['f'] (97..102), always below 16,
    and reaches [assert(0)] for every other value, the upper-case letters
    included. *)
Theorem xtoi_spec (c : Z) :
  xtoi c =
    if (48 <=? c) && (c <=? 57) then Done (c - 48)
    else if (97 <=? c) && (c <=? 102) then Done (c - 87)
    else Crash AssertFailed.
Proof.
  unfold xtoi.
  change (chr "0") with 48. change (chr "9") with 57.
  change (chr "a") with 97. change (chr "f") with 102.
  change (chr "A") with 65. change (chr "F") with 70.
  rewrite !Z.geb_leb.
  destruct (Z.leb_spec 48 c), (Z.leb_spec c 57), (Z.leb_spec 97 c),
    (Z.leb_spec c 102), (Z.leb_spec 65 c), (Z.ltb_spec c (Z.opp 70));
    cbn [andb]; try lia; try reflexivity;
    rewrite uint8_small by lia; f_equal; lia.
Qed.

(** ** X20: what [BitStreamShow] prints *)

Lemma append_cons c (s t : string) : String c s +:+ t = String c (s +:+ t).
Proof. reflexivity. Qed.

Lemma append_nil_l (t : string) : "" +:+ t = t.
Proof. reflexivity. Qed.

Lemma append_nil_r (s : string) : s +:+ "" = s.
Proof.
  induction s as [|c s IH]; [reflexivity|]. now rewrite append_cons, IH.
Qed.

Lemma append_assoc (s t u : string) : (s +:+ t) +:+ u = s +:+ t +:+ u.
Proof.
  induction s as [|c s IH]; [reflexivity|]. now rewrite !append_cons, IH.
Qed.

Section ShowLoop.

Variables (bs : BitStream) (a : list Z).
Hypothesis Harr : array bs = Some a.
Hypothesis Hlen : Z.of_nat (length a) = nbytes (nbits bs).
Hypothesis Hmax : Z.of_nat (length a) <= 65535.

Lemma show_loop_spec : forall (r : list Z) (m fuel : nat) (out : string),
  drop m a = r ->
  (length r <= fuel)%nat ->
  show_loop fuel bs (Z.of_nat m) out = Done (out +:+ show_cells (Z.of_nat m) r).
Proof.
  unfold nbytes in Hlen.
  induction r as [|b r IH]; intros m fuel out Hdrop Hfuel.
  - assert (Hm : (length a <= m)%nat).
    { destruct (Nat.le_gt_cases (length a) m) as [|Hlt]; [assumption|].
      destruct (lookup_lt_is_Some_2 a m Hlt) as [x Hx].
      rewrite (drop_S a x m Hx) in Hdrop. discriminate. }
    destruct fuel; cbn [show_loop show_cells]; rewrite <- Hlen;
      (destruct (Z.ltb_spec (Z.of_nat m) (Z.of_nat (length a))); [lia|]);
      now rewrite append_nil_r.
  - assert (Hb : a !! m = Some b).
    { rewrite <- (Nat.add_0_r m), <- lookup_drop, Hdrop. reflexivity. }
    pose proof (lookup_lt_Some _ _ _ Hb) as Hm.
    assert (Hnext : drop (S m) a = r).
    { rewrite (drop_S a b m Hb) in Hdrop. now injection Hdrop. }
    destruct fuel as [|fuel]; [cbn [length] in Hfuel; lia|].
    cbn [show_loop show_cells]. rewrite <- Hlen.
    destruct (Z.ltb_spec (Z.of_nat m) (Z.of_nat (length a))); [|lia].
    rewrite (load_Some bs a (Z.of_nat m) b Harr ltac:(lia))
      by (now rewrite Nat2Z.id).
    cbn [bind].
    rewrite (uint16_small (Z.of_nat m + 1)) by lia.
    replace (Z.of_nat m + 1) with (Z.of_nat (S m)) by lia.
    rewrite (IH (S m) fuel _ Hnext) by (cbn [length] in Hfuel; lia).
    f_equal. unfold show_cell.
    rewrite !Z.rem_mod_nonneg by lia.
    destruct (negb (Z.of_nat m =? 0) && (Z.of_nat m mod 4 =? 0)),
      (negb (Z.of_nat m =? 0) && (Z.of_nat m mod 8 =? 0));
      now rewrite ?append_assoc.
Qed.

End ShowLoop.

(** X20. [BitStreamShow] prints ["NULL!"] and a newline for a NULL buffer
    and for a buffer without storage.  For a buffer of fewer than 65536 bits
    that satisfies the invariant it reads every byte of the storage once,
    in order, and prints the label [000] and a tab, then each byte as two
    lower-case hexadecimal digits and a space; before the byte of index
    [i > 0] it prints two spaces when [i] is a multiple of 4 and, when [i]
    is a multiple of 8, a newline, [i] in three decimal digits and a
    tab. *)
Theorem show_spec bs :
  BitStreamShow None = Done ("NULL!" +:+ newline) /\
  (array bs = None -> BitStreamShow (Some bs) = Done ("NULL!" +:+ newline)) /\
  (forall a,
      array bs = Some a -> invariant bs -> nbits bs < 65536 ->
      BitStreamShow (Some bs) = Done (printf_03d 0 +:+ tab +:+ show_cells 0 a)).
Proof.
  split; [reflexivity|]. split.
  - intros Harr. unfold BitStreamShow. now rewrite Harr.
  - intros a Harr Hinv Hmax. unfold BitStreamShow. rewrite Harr.
    unfold invariant in Hinv. rewrite Harr in Hinv. destruct Hinv as [Hpos Hlen].
    pose proof (nbytes_spec (nbits bs) ltac:(lia)) as Hnb.
    fold (nbytes (nbits bs)). rewrite <- Hlen, Nat2Z.id.
    change 0 with (Z.of_nat 0).
    rewrite (show_loop_spec bs a Harr Hlen ltac:(lia) a 0 (length a)) by (reflexivity || lia).
    now rewrite append_assoc.
Qed.

Lemma show_spec_witness :
  BitStreamShow None = Done ("NULL!" +:+ newline) /\
  (array (mkBitStream (Some [0x1c; 0x01]) 16) = None ->
   BitStreamShow (Some (mkBitStream (Some [0x1c; 0x01]) 16)) = Done ("NULL!" +:+ newline)) /\
  (forall a,
      array (mkBitStream (Some [0x1c; 0x01]) 16) = Some a ->
      invariant (mkBitStream (Some [0x1c; 0x01]) 16) ->
      nbits (mkBitStream (Some [0x1c; 0x01]) 16) < 65536 ->
      BitStreamShow (Some (mkBitStream (Some [0x1c; 0x01]) 16))
        = Done (printf_03d 0 +:+ tab +:+ show_cells 0 a)).
Proof. apply (show_spec (mkBitStream (Some [0x1c; 0x01]) 16)). Defined.

(** ** X21: what is printed for the bytes can be decoded again *)

Lemma printf_02x_digits b :
  0 <= b < 256 ->
  exists d1 d2,
    printf_02x b = String d1 (String d2 EmptyString) /\
    accepted d1 = true /\ accepted d2 = true /\
    16 * hex_value d1 + hex_value d2 = b.
Proof.
  intros Hb.
  pose (P := fun v (_ _ : Z) =>
    match printf_02x v with
    | String d1 (String d2 EmptyString) =>
        accepted d1 && accepted d2 && (16 * hex_value d1 + hex_value d2 =? v)
    | _ => false
    end).
  assert (H : P b 0 0 = true)
    by (apply all_cases_sound; [vm_compute; reflexivity | lia..]).
  unfold P in H.
  destruct (printf_02x b) as [|d1 [|d2 [|]]]; try discriminate H.
  apply andb_true_iff in H as [H H3]. apply andb_true_iff in H as [H1 H2].
  apply Z.eqb_eq in H3. exists d1, d2. auto.
Qed.

Lemma hex_text_digits (a : list Z) :
  byte_storage a ->
  Forall (fun c => accepted c = true) (list_ascii_of_string (hex_text a)) /\
  length (list_ascii_of_string (hex_text a)) = (2 * length a)%nat /\
  decode_pairs (list_ascii_of_string (hex_text a)) = a.
Proof.
  induction 1 as [|b a Hb Ha IH]; [repeat split; constructor|].
  destruct IH as (IH1 & IH2 & IH3).
  destruct (printf_02x_digits b Hb) as (d1 & d2 & Hp & H1 & H2 & Hv).
  cbn [hex_text]. rewrite Hp, !append_cons, append_nil_l.
  cbn [list_ascii_of_string decode_pairs length].
  split; [now repeat constructor|]. split; [lia|]. now rewrite Hv, IH3.
Qed.

(** X21. The two-digit text that [BitStreamShow] prints for a byte is text
    the decoder reads: for every array of 1 to 8191 bytes, decoding the
    digits of its bytes, one byte after the other, into a buffer that owns
    storage (the reallocation succeeding) gives a buffer of
    [8 * length] bits whose storage is that array. *)
Theorem decode_hex_text h bs old (a : list Z) :
  array bs = Some old ->
  realloc_ok h = true ->
  byte_storage a ->
  1 <= Z.of_nat (length a) <= 8191 ->
  BitStreamFillAscii h (Some bs) (hex_text a) =
    Done (Some (mkBitStream (Some a) (8 * Z.of_nat (length a))),
          8 * Z.of_nat (length a)).
Proof.
  intros Harr Hre Hbytes Hlen.
  destruct (hex_text_digits a Hbytes) as (Hacc & Hl & Hdec).
  rewrite (FillAscii_spec h bs old (hex_text a) Harr Hre Hacc) by lia.
  unfold hex_bytes. rewrite Hl.
  replace (Nat.odd (2 * length a)) with false
    by (symmetry; rewrite <- Nat.negb_even, Nat.even_mul; reflexivity).
  now rewrite Hdec.
Qed.

Lemma decode_hex_text_witness :
  BitStreamFillAscii libc_ok (Some one_byte_buffer) (hex_text [0x1c; 0x01]) =
    Done (Some (mkBitStream (Some [0x1c; 0x01]) (8 * Z.of_nat (length [0x1c; 0x01]))),
          8 * Z.of_nat (length [0x1c; 0x01])).
Proof.
  apply (decode_hex_text libc_ok one_byte_buffer [0] [0x1c; 0x01]).
  - reflexivity.
  - reflexivity.
  - repeat constructor; lia.
  - simpl. lia.
Defined.

(** ** X22: [strtox] and the size of its destination *)

Section StrtoxTruncates.

Variables (s : string) (sz : nat).

Abbreviation cs := (list_ascii_of_string s).
Abbreviation len := (Z.of_nat (length (list_ascii_of_string s))).

Hypothesis Hlen : len <= 32767.
Hypothesis Hacc : Forall (fun c => accepted c = true) cs.

(** The loop, entered with [j < sz] bytes written and more pairs left than
    [sz] has room for: it stops when the byte of index [sz - 1] is
    written. *)
Lemma strtox_loop_truncates : forall (d fuel i j p : nat) (out : list Z),
  (i + 2 * p = length cs)%nat ->
  (p <= fuel)%nat ->
  (j <= i)%nat ->
  sz = (j + S d)%nat ->
  (S d <= p)%nat ->
  (sz <= length out)%nat ->
  strtox_loop fuel s len (Z.of_nat sz) (Z.of_nat i) (Z.of_nat j) (Some out) =
    Done (Some (take j out ++ take (S d) (decode_pairs (drop i cs)) ++ drop sz out),
          -1).
Proof.
  induction d as [|d IH]; intros fuel i j p out Hi Hfuel Hji Hsz Hp Hout;
    (destruct fuel as [|fuel]; [lia|]); cbn [strtox_loop];
    (assert (Hloop : (Z.of_nat i <? len) = true) by (apply Z.ltb_lt; lia));
    rewrite Hloop;
    destruct (digit_at s Hacc i ltac:(lia)) as (c1 & Hc1 & Hx1 & Hv1);
    destruct (digit_at s Hacc (S i) ltac:(lia)) as (c2 & Hc2 & Hx2 & Hv2);
    replace (Z.of_nat i + 1) with (Z.of_nat (S i)) by lia;
    apply bind_Done in Hx1 as (k1 & Hk1 & Hx1);
    apply bind_Done in Hx2 as (k2 & Hk2 & Hx2);
    rewrite Hk1; cbn [bind]; rewrite Hx1; cbn [bind];
    rewrite Hk2; cbn [bind]; rewrite Hx2; cbn [bind];
    rewrite (poke_Some out j) by lia; cbn [bind];
    rewrite pack_nibbles by assumption;
    (replace (int16 (Z.of_nat j + 1)) with (Z.of_nat (S j))
      by (rewrite int16_small; lia));
    (replace (int16 (Z.of_nat i + 2)) with (Z.of_nat (S (S i)))
      by (rewrite int16_small; lia));
    rewrite (drop_S cs c1 i Hc1), (drop_S cs c2 (S i) Hc2);
    cbn [decode_pairs]; rewrite Z.geb_leb;
    destruct (Z.leb_spec (Z.of_nat sz) (Z.of_nat (S j))) as [Hfull|Hroom];
    try lia.
  - rewrite (insert_take_drop out j) by lia.
    replace sz with (S j) by lia. reflexivity.
  - rewrite (IH fuel (S (S i)) (S j) (Nat.pred p));
      [| lia | lia | lia | lia | lia | rewrite length_insert; lia].
    rewrite (take_S_r (<[j:=16 * hex_value c1 + hex_value c2]> out) j
               (16 * hex_value c1 + hex_value c2))
      by (apply list_lookup_insert_eq; lia).
    rewrite take_insert_ge by lia.
    rewrite drop_insert_lt by lia.
    rewrite <- app_assoc. reflexivity.
Qed.

End StrtoxTruncates.

(** X22. For a string of 2 to 32767 characters all in [0-9a-f], [strtox]
    with a [size] of at least 1 (at least 2 when the length is odd) that is
    not more than the [ceil(length/2)] bytes the string denotes writes the
    first [size] of these bytes, leaves the block untouched from index
    [size] on and returns [-1]. *)
Theorem strtox_stops_at_size s (sz : nat) (out : list Z) :
  Forall (fun c => accepted c = true) (list_ascii_of_string s) ->
  Z.of_nat (String.length s) <= 32767 ->
  (Nat.b2n (Nat.odd (String.length s)) + 1 <= sz)%nat ->
  (sz <= length (hex_bytes (list_ascii_of_string s)))%nat ->
  (sz <= length out)%nat ->
  strtox s (Some out) (Z.of_nat sz) =
    Done (Some (take sz (hex_bytes (list_ascii_of_string s)) ++ drop sz out), -1).
Proof.
  intros Hacc Hlen Hlow Hhigh Hout.
  pose proof (length_list_ascii s) as Hls. rewrite <- Hls in *.
  set (cs := list_ascii_of_string s) in *.
  pose proof (Nat.div2_odd (length cs)) as Hpar.
  generalize dependent (Nat.div2 (length cs)). intros p Hpar.
  unfold strtox. rewrite (strlen_accepted s Hacc), <- length_list_ascii. fold cs.
  rewrite int16_small by lia. rewrite Z.rem_mod_nonneg by lia.
  pose proof (strtox_loop_truncates s sz) as Hloop. fold cs in Hloop.
  unfold hex_bytes in *.
  destruct (Nat.odd (length cs)) eqn:Hodd; cbn [Nat.b2n] in *.
  - destruct cs as [|c rest] eqn:Hcs; [simpl in Hpar; lia|].
    cbn [length] in *.
    rewrite (decode_pairs_length p rest) in Hhigh by lia.
    replace (Z.of_nat (S (length rest)) mod 2) with 1
      by (apply Z.mod_unique with (Z.of_nat p); lia).
    change (negb (1 =? 0)) with true. cbv iota.
    destruct (digit_at s ltac:(fold cs; rewrite Hcs; exact Hacc) 0%nat
                ltac:(fold cs; rewrite Hcs; simpl; lia))
      as (c' & Hc' & Hx & Hv).
    fold cs in Hc'. rewrite Hcs in Hc'. injection Hc' as <-.
    change (Z.of_nat 0) with 0 in Hx.
    apply bind_Done in Hx as (k & Hk & Hx).
    rewrite Hk. cbn [bind]. rewrite Hx. cbn [bind].
    change 0 with (Z.of_nat 0) at 1. rewrite (poke_Some out 0) by lia. cbn [bind].
    rewrite uint8_small by lia.
    change (int16 (0 + 1)) with (Z.of_nat 1). change 1 with (Z.of_nat 1) at 1.
    rewrite Nat2Z.id.
    rewrite (Hloop ltac:(lia) Hacc (sz - 2)%nat (S (length rest)) 1%nat 1%nat p);
      [| lia | lia | lia | lia | lia | rewrite length_insert; lia].
    destruct out as [|o out]; [simpl in Hout; lia|].
    destruct sz as [|[|sz']]; [lia | lia |].
    cbn [drop take app]. replace (S (S sz') - 2)%nat with sz' by lia.
    cbn [list_insert insert]. reflexivity.
  - replace (Z.of_nat (length cs) mod 2) with 0
      by (apply Z.mod_unique with (Z.of_nat p); lia).
    change (negb (0 =? 0)) with false. cbv iota. cbn [bind].
    rewrite (decode_pairs_length p cs) in Hhigh by lia.
    change 0 with (Z.of_nat 0). rewrite Nat2Z.id.
    rewrite (Hloop ltac:(lia) Hacc (sz - 1)%nat (length cs) 0%nat 0%nat p);
      [| lia | lia | lia | lia | lia | lia].
    cbn [take drop app]. now replace (S (sz - 1)) with sz by lia.
Qed.

Lemma strtox_stops_at_size_witness :
  strtox "1c0111" (Some [7; 7; 7; 7]) (Z.of_nat 2) =
    Done (Some (take 2 (hex_bytes (list_ascii_of_string "1c0111")) ++ drop 2 [7; 7; 7; 7]),
          -1).
Proof.
  apply (strtox_stops_at_size "1c0111" 2 [7; 7; 7; 7]).
  - repeat constructor.
  - simpl. lia.
  - simpl. lia.
  - simpl. lia.
  - simpl. lia.
Defined.

(** The result of a fill, for a buffer of at most 65528 bits. *)
Lemma Fill_result bs inp cnt :
  invariant bs ->
  nbits bs <= 65528 ->
  nbytes (nbits bs) <= Z.of_nat (length inp) ->
  exists bs',
    BitStreamFill bs inp cnt = Done (bs', 8 * nbytes (nbits bs)) /\
    nbits bs' = nbits bs /\
    array bs' = (fun a => uint8 <$> take (length a) inp) <$> array bs.
Proof.
  intros Hinv HN Hinp.
  destruct bs as [[a|] N]; unfold invariant in Hinv; simpl in *.
  - destruct Hinv as [Hpos Hlen].
    pose proof (nbytes_spec N ltac:(lia)) as Hnb.
    eexists. split; [|split].
    + rewrite (Fill_nonempty N ltac:(lia) a inp cnt) by lia.
      replace (Z.to_nat (nbytes N)) with (length a) by lia.
      repeat f_equal. lia.
    + reflexivity.
    + reflexivity.
  - subst N. eexists. split; [|split].
    + unfold BitStreamFill. rewrite fill_loop_exit by (simpl; lia). reflexivity.
    + reflexivity.
    + reflexivity.
Qed.

(** ** X23: a read of any field after a fill *)

Lemma bit_at_fill_bytes (inp : list Z) (m : nat) k :
  0 <= k < 8 * Z.of_nat m -> (m <= length inp)%nat ->
  bit_at (uint8 <$> take m inp) k = bit_at inp k.
Proof.
  intros Hk Hm. unfold bit_at.
  pose proof (Z.div_mod k 8 ltac:(lia)). pose proof (Z.mod_pos_bound k 8 ltac:(lia)).
  pose proof (Z.div_pos k 8 ltac:(lia) ltac:(lia)).
  rewrite list_lookup_fmap, lookup_take_lt by lia.
  destruct (inp !! Z.to_nat (k / 8)) as [b|]; [|reflexivity]. cbn.
  rewrite testbit_uint8 by lia.
  destruct (Z.ltb_spec (7 - k mod 8) 8); [|lia]. apply andb_true_r.
Qed.

(** X23. On a buffer of at most 65528 bits that satisfies the invariant,
    after a fill from at least [nbytes (nbits bs)] source bytes, a read of
    any field of 1 to 8 bits inside the bit length, aligned or not, returns
    the bits the source has at the same bit offsets, most significant bit
    of each byte first. *)
Theorem get_after_fill_any_field bs inp cnt byte0 offset n :
  invariant bs ->
  nbits bs <= 65528 ->
  nbytes (nbits bs) <= Z.of_nat (length inp) ->
  0 <= offset -> 1 <= n <= 8 -> offset + n <= nbits bs ->
  exists bs' v,
    BitStreamFill bs inp cnt = Done (bs', 8 * nbytes (nbits bs)) /\
    BitStreamGetByte bs' byte0 offset n = Done (v, n) /\
    0 <= v < 2 ^ n /\
    forall t, 0 <= t < n -> Z.testbit v t = bit_at inp (offset + n - 1 - t).
Proof.
  intros Hinv HN Hinp Hoff Hn Hin.
  destruct (invariant_has_storage bs (offset + n) Hinv ltac:(lia)) as [a Harr].
  pose proof (invariant_storage bs a _ Hinv Harr Hin) as Hfit.
  destruct (Fill_result bs inp cnt Hinv HN Hinp)
    as (bs' & Hfill & Hnb & Harr').
  rewrite Harr in Harr'. cbn in Harr'.
  assert (Hlen : Z.of_nat (length a) = nbytes (nbits bs)).
  { unfold invariant in Hinv. rewrite Harr in Hinv. tauto. }
  destruct (GetByte_bits bs' _ byte0 offset n Harr' Hoff Hn ltac:(lia)
              ltac:(rewrite length_fmap, length_take; lia))
    as (v & Hget & Hv & Hbits).
  exists bs', v. split; [exact Hfill|]. split; [exact Hget|]. split; [exact Hv|].
  intros t Ht. rewrite Hbits by exact Ht.
  apply bit_at_fill_bytes; lia.
Qed.

Lemma get_after_fill_any_field_witness :
  exists bs' v,
    BitStreamFill (mkBitStream (Some [0; 0; 0]) 20) [0xAB; 0xCD; 0xEF] 0
      = Done (bs', 8 * nbytes 20) /\
    BitStreamGetByte bs' 0 6 7 = Done (v, 7) /\
    0 <= v < 2 ^ 7 /\
    forall t, 0 <= t < 7 -> Z.testbit v t = bit_at [0xAB; 0xCD; 0xEF] (6 + 7 - 1 - t).
Proof.
  apply (get_after_fill_any_field (mkBitStream (Some [0; 0; 0]) 20)
                                  [0xAB; 0xCD; 0xEF] 0 0 6 7).
  - split; reflexivity.
  - simpl. lia.
  - vm_compute. discriminate.
  - lia.
  - lia.
  - simpl. lia.
Defined.

(** ** X24: a write after the storage has been released *)

(** X24. [BitStreamRealloc] with no supplied block and 0 bits leaves any
    buffer without storage, and [BitStreamPutByte], which does not look at
    the bit length, then writes through NULL whatever its arguments (where
    [BitStreamGetByte] returns 0 bits). *)
Theorem put_after_release h bs value offset n :
  BitStreamRealloc h (Some bs) None 0 = Some (mkBitStream None 0) /\
  BitStreamPutByte (mkBitStream None 0) value offset n = Crash NullDeref.
Proof.
  split.
  - unfold BitStreamRealloc. now destruct (array bs).
  - reflexivity.
Qed.

(** ** X25: the paths of [BitStreamRealloc] that keep the invariant *)

(** X25. [BitStreamRealloc] leaves a buffer with the requested bit length
    that satisfies the invariant in three cases: a block of
    [nbytes n] bytes is supplied with a positive bit count [n]; no block
    is supplied and the bit count is 0; no block is supplied, the bit count
    is positive, the buffer owns storage and the reallocation succeeds. *)
Theorem realloc_keeps_invariant h bs buffer n :
  match buffer with
  | Some buf => 0 < n /\ Z.of_nat (length buf) = nbytes n
  | None => n = 0 \/ (0 < n /\ is_Some (array bs) /\ realloc_ok h = true)
  end ->
  exists bs',
    BitStreamRealloc h (Some bs) buffer n = Some bs' /\
    nbits bs' = n /\
    invariant bs'.
Proof.
  intros Hcase.
  destruct (BitStreamRealloc h (Some bs) buffer n) as [bs'|] eqn:Hre;
    [|discriminate Hre].
  exists bs'. split; [reflexivity|]. split.
  - apply (Realloc_nbits _ _ _ _ _ Hre).
  - apply (Realloc_invariant h bs buffer n bs' Hcase Hre).
Qed.

Lemma realloc_keeps_invariant_witness :
  exists bs',
    BitStreamRealloc libc_ok (Some one_byte_buffer) (Some [1; 2]) 12 = Some bs' /\
    nbits bs' = 12 /\
    invariant bs'.
Proof.
  apply (realloc_keeps_invariant libc_ok one_byte_buffer (Some [1; 2]) 12).
  split; [lia | reflexivity].
Defined.
